(** * obfsproxy: entry point (src/main.c)

    A shallow embedding of [main.c]: the protocol lookup
    [is_supported_protocol], the option scanner [handle_obfsproxy_args]
    with its caller [obfs_main], and the signal callback
    [handle_signal_cb].

    C [int]s are [Z] (no arithmetic in this file leaves the range of an
    [int]: flags are 0 or 1 and [i] is bounded by the length of [argv]).
    A C string is the [string] of its bytes before the terminating NUL,
    so no modelled string contains the NUL byte.  Process state (the
    globals and function-level statics of [main.c], and what the
    collaborating modules were asked to do) is threaded explicitly. *)

From Stdlib Require Import ZArith List String Ascii Bool Lia.
Import ListNotations.
Local Open Scope string_scope.
Local Open Scope Z_scope.

(* ================================================================== *)
(** ** <string.h> *)

(** Order of two bytes as [strcmp] reports it: negative, zero, positive. *)
Definition byte_cmp (c1 c2 : ascii) : Z :=
  match N.compare (N_of_ascii c1) (N_of_ascii c2) with
  | Eq => 0
  | Lt => -1
  | Gt => 1
  end.

(** [strncmp(s1, s2, n)]: compares at most [n] bytes; the end of a
    string (its NUL) is smaller than every byte and stops the scan. *)
Fixpoint strncmp (s1 s2 : string) (n : nat) {struct n} : Z :=
  match n with
  | O => 0
  | S n' =>
      match s1, s2 with
      | EmptyString, EmptyString => 0
      | EmptyString, String _ _ => -1
      | String _ _, EmptyString => 1
      | String c1 r1, String c2 r2 =>
          if byte_cmp c1 c2 =? 0 then strncmp r1 r2 n' else byte_cmp c1 c2
      end
  end.

(** [strcmp(s1, s2)]. *)
Fixpoint strcmp (s1 s2 : string) : Z :=
  match s1, s2 with
  | EmptyString, EmptyString => 0
  | EmptyString, String _ _ => -1
  | String _ _, EmptyString => 1
  | String c1 r1, String c2 r2 =>
      if byte_cmp c1 c2 =? 0 then strcmp r1 r2 else byte_cmp c1 c2
  end.

(** [s + k] for a [char *] that points to at least [k] bytes. *)
Fixpoint str_offset (k : nat) (s : string) : string :=
  match k, s with
  | O, _ => s
  | S k', String _ r => str_offset k' r
  | S _, EmptyString => EmptyString
  end.

(* ================================================================== *)
(** ** protocol.h: the table of supported protocols *)

(** [struct protocol_vtable]: only the [name] field is read here. *)
Record protocol_vtable := { name : string }.

Section Registry.

(** [supported_protocols] and [n_supported_protocols] are defined in
    protocol.c; the table is taken as a parameter, and
    [n_supported_protocols] is its number of entries. *)
Variable supported_protocols : list protocol_vtable.

Definition n_supported_protocols : Z :=
  Z.of_nat (List.length supported_protocols).

(** The body of the [for] loop of [is_supported_protocol], from entry
    [i] on: [tbl] is [supported_protocols + i]. *)
Fixpoint is_supported_protocol_from (nm : string)
         (tbl : list protocol_vtable) : Z :=
  match tbl with
  | [] => 0
  | p :: tbl' =>
      if strcmp nm (name p) =? 0 then 1
      else is_supported_protocol_from nm tbl'
  end.

(** [int is_supported_protocol(const char *name)]. *)
Definition is_supported_protocol (nm : string) : Z :=
  is_supported_protocol_from nm supported_protocols.

End Registry.

(* ================================================================== *)
(** ** Process state and effects *)

(** [LOG_METHOD_*] of util.h (only these two are used by main.c). *)
Inductive log_method := LOG_METHOD_FILE | LOG_METHOD_NULL.

(** Where the logging module writes. *)
Inductive log_destination :=
| ExternalDefault
| NullSink
| File (path : string).

(** What the process did that is visible outside main.c, in order. *)
Inductive event :=
| EvLogNotice (msg : string)
| EvLogDebug (msg : string)
| EvLogError (msg : string)
| EvPrintf (msg : string)
| EvCloseAllListeners
| EvStartShutdown (barbaric : Z)
| EvLoopExit
| EvLaunchExternal (begin : list string)
| EvLaunchManaged.

(** The globals of main.c, the static local of [handle_signal_cb], the
    settings held by the logging module, and the trace of events. *)
Record world := {
  is_external_proxy : Z;
  safe_logging : Z;
  got_sigint : Z;
  log_dest : log_destination;
  log_min_sev : option string;
  output : list event
}.

(** The state at process start: [is_external_proxy=1], [safe_logging=1],
    [got_sigint=0], logging untouched. *)
Definition initial_world : world :=
  {| is_external_proxy := 1; safe_logging := 1; got_sigint := 0;
     log_dest := ExternalDefault; log_min_sev := None; output := [] |}.

(** A call either returns a value or ends the process ([exit(code)]). *)
Inductive outcome (A : Type) :=
| Ret (a : A) (w : world)
| Exit (code : Z) (w : world).
Arguments Ret {A} a w.
Arguments Exit {A} code w.

Definition M (A : Type) : Type := world -> outcome A.

Definition ret {A} (a : A) : M A := fun w => Ret a w.

Definition bind {A B} (m : M A) (k : A -> M B) : M B :=
  fun w => match m w with
           | Ret a w' => k a w'
           | Exit c w' => Exit c w'
           end.

Declare Scope proc_scope.
Delimit Scope proc_scope with proc.
Notation "x <- m ;; k" := (bind m (fun x => k))
  (at level 61, m at next level, right associativity) : proc_scope.
Notation "m ;; k" := (bind m (fun _ => k))
  (at level 61, right associativity) : proc_scope.
Local Open Scope proc_scope.

Definition emit (e : event) : M unit :=
  fun w => Ret tt
    {| is_external_proxy := is_external_proxy w;
       safe_logging := safe_logging w;
       got_sigint := got_sigint w;
       log_dest := log_dest w;
       log_min_sev := log_min_sev w;
       output := output w ++ [e] |}.

(** [exit(code)]. *)
Definition exit {A} (code : Z) : M A := fun w => Exit code w.

Definition read {A} (f : world -> A) : M A := fun w => Ret (f w) w.

Definition set_is_external_proxy (v : Z) : M unit :=
  fun w => Ret tt
    {| is_external_proxy := v;
       safe_logging := safe_logging w;
       got_sigint := got_sigint w;
       log_dest := log_dest w;
       log_min_sev := log_min_sev w;
       output := output w |}.

Definition set_safe_logging (v : Z) : M unit :=
  fun w => Ret tt
    {| is_external_proxy := is_external_proxy w;
       safe_logging := v;
       got_sigint := got_sigint w;
       log_dest := log_dest w;
       log_min_sev := log_min_sev w;
       output := output w |}.

Definition set_got_sigint (v : Z) : M unit :=
  fun w => Ret tt
    {| is_external_proxy := is_external_proxy w;
       safe_logging := safe_logging w;
       got_sigint := v;
       log_dest := log_dest w;
       log_min_sev := log_min_sev w;
       output := output w |}.

Definition set_log_dest (d : log_destination) : M unit :=
  fun w => Ret tt
    {| is_external_proxy := is_external_proxy w;
       safe_logging := safe_logging w;
       got_sigint := got_sigint w;
       log_dest := d;
       log_min_sev := log_min_sev w;
       output := output w |}.

Definition set_log_min_sev (s : string) : M unit :=
  fun w => Ret tt
    {| is_external_proxy := is_external_proxy w;
       safe_logging := safe_logging w;
       got_sigint := got_sigint w;
       log_dest := log_dest w;
       log_min_sev := Some s;
       output := output w |}.

(** The events a call appended to the trace of [w]. *)
Definition world_of {A} (o : outcome A) : world :=
  match o with Ret _ w => w | Exit _ w => w end.

Definition emitted {A} (m : M A) (w : world) : list event :=
  skipn (List.length (output w)) (output (world_of (m w))).

(* ------------------------------------------------------------------ *)
(** *** util.h: logging *)

Definition log_notice (msg : string) : M unit := emit (EvLogNotice msg).
Definition log_debug (msg : string) : M unit := emit (EvLogDebug msg).
Definition printf (msg : string) : M unit := emit (EvPrintf msg).

(** Modelled from the spec: [log_error] is defined in util.c, which is
    missing.  The logging collaborator's [logError] "is documented to
    terminate the process after recording the message", and every fatal
    path exits with code 1. *)
Definition log_error {A} (msg : string) : M A :=
  emit (EvLogError msg) ;; exit 1.

(** What the collaborating modules answer.  Their code (util.c,
    external.c, managed.c) is missing; main.c only tests whether the
    returned [int] is negative. *)
Record collaborators := {
  log_set_method_rc : log_method -> option string -> Z;
  log_set_min_severity_rc : string -> Z;
  launch_external_proxy_rc : list string -> Z;
  launch_managed_proxy_rc : Z
}.

(* ================================================================== *)
(** ** Signal handling *)

(** <signal.h> (POSIX numbering). *)
Definition SIGINT : Z := 2.
Definition SIGTERM : Z := 15.
(** <event2/event.h>: the [what] flag of a signal event. *)
Definition EV_SIGNAL : Z := 8.

(** [close_all_listeners()] of network.c, recorded as an event. *)
Definition close_all_listeners : M unit := emit EvCloseAllListeners.

(** [void finish_shutdown(void)]: logs and asks the event loop to exit
    ([event_base_loopexit]). *)
Definition finish_shutdown : M unit :=
  log_debug "Finishing shutdown." ;;
  emit EvLoopExit.

(** Modelled from the spec: [start_shutdown] is defined in network.c,
    which is missing.  A graceful request ([barbaric] = 0) tells the
    network collaborator to let open connections finish: "once the last
    connection closes, that collaborator itself calls requestExit()", so
    nothing more happens inside the call.  An immediate request "calls
    requestExit() unconditionally and does not wait for connections to
    drain". *)
Definition start_shutdown (barbaric : Z) : M unit :=
  emit (EvStartShutdown barbaric) ;;
  if barbaric =? 0 then ret tt else finish_shutdown.

(** [static void handle_signal_cb(evutil_socket_t fd, short what,
    void *arg)]; [arg] is unused and always NULL. *)
Definition handle_signal_cb (fd : Z) (what : Z) : M unit :=
  let signum := fd in
  if signum =? SIGINT then
    close_all_listeners ;;
    g <- read got_sigint ;;
    if g =? 0 then
      log_notice "Got SIGINT. Preparing shutdown." ;;
      start_shutdown 0 ;;
      set_got_sigint (g + 1)
    else
      log_notice "Got SIGINT for the second time. Terminating." ;;
      start_shutdown 1
  else if signum =? SIGTERM then
    log_notice "Got SIGTERM. Terminating." ;;
    start_shutdown 1
  else ret tt.

(** The state [w] after [got_sigint] became [g] and the events [evs]
    were appended. *)
Definition after_signal (w : world) (g : Z) (evs : list event) : world :=
  {| is_external_proxy := is_external_proxy w;
     safe_logging := safe_logging w;
     got_sigint := g;
     log_dest := log_dest w;
     log_min_sev := log_min_sev w;
     output := output w ++ evs |}.

(** The three events of an immediate shutdown request. *)
Definition immediate_events : list event :=
  [EvStartShutdown 1; EvLogDebug "Finishing shutdown."; EvLoopExit].

(** The event loop delivering the signals [sigs] one after the other. *)
Fixpoint deliver (sigs : list Z) : M unit :=
  match sigs with
  | [] => ret tt
  | s :: sigs' => handle_signal_cb s EV_SIGNAL ;; deliver sigs'
  end.

(** The shutdown phase the process is in, read off its state: an
    immediate shutdown has been requested (Terminating); otherwise a
    first SIGINT has been counted (Draining); otherwise Running. *)
Inductive ShutdownState := Running | Draining | Terminating.

Definition is_immediate (e : event) : bool :=
  match e with
  | EvStartShutdown b => negb (b =? 0)
  | _ => false
  end.

Definition is_graceful (e : event) : bool :=
  match e with
  | EvStartShutdown b => b =? 0
  | _ => false
  end.

Definition is_close_listeners (e : event) : bool :=
  match e with EvCloseAllListeners => true | _ => false end.

Definition is_loop_exit (e : event) : bool :=
  match e with EvLoopExit => true | _ => false end.

Definition count (p : event -> bool) (t : list event) : nat :=
  List.length (filter p t).

Definition is_sigint (s : Z) : bool := s =? SIGINT.

Definition shutdown_state (w : world) : ShutdownState :=
  if existsb is_immediate (output w) then Terminating
  else if got_sigint w =? 0 then Running
  else Draining.

Definition phase_rank (s : ShutdownState) : nat :=
  match s with Running => 0 | Draining => 1 | Terminating => 2 end.

(** The phases passed through while [sigs] are delivered from [w],
    starting with the phase of [w] itself. *)
Fixpoint phases (sigs : list Z) (w : world) : list ShutdownState :=
  shutdown_state w ::
  match sigs with
  | [] => []
  | s :: sigs' => phases sigs' (world_of (handle_signal_cb s EV_SIGNAL w))
  end.

(** No graceful request comes after an immediate one in the trace. *)
Fixpoint no_graceful_after_immediate (t : list event) : bool :=
  match t with
  | [] => true
  | e :: t' =>
      (if is_immediate e then negb (existsb is_graceful t') else true)
      && no_graceful_after_immediate t'
  end.

(* ================================================================== *)
(** ** Command line *)

Definition nl : string := String (ascii_of_nat 10) EmptyString.

Section Main.

Variable C : collaborators.

(** Modelled from the spec: [log_set_method] is defined in util.c,
    which is missing.  "setMethod(NullSink|File(path)) -> Result":
    when the call succeeds the destination is the one asked for. *)
Definition log_set_method (method : log_method)
           (filename : option string) : M Z :=
  let rc := log_set_method_rc C method filename in
  if rc <? 0 then ret rc
  else
    match method, filename with
    | LOG_METHOD_FILE, Some f => set_log_dest (File f) ;; ret rc
    | LOG_METHOD_FILE, None => ret rc
    | LOG_METHOD_NULL, _ => set_log_dest NullSink ;; ret rc
    end.

(** Modelled from the spec: [log_set_min_severity] is defined in
    util.c, which is missing.  "setMinSeverity(level) -> Result": when
    the call succeeds the minimum severity is the one asked for. *)
Definition log_set_min_severity (sev : string) : M Z :=
  let rc := log_set_min_severity_rc C sev in
  if rc <? 0 then ret rc
  else set_log_min_sev sev ;; ret rc.

(** [launch_external_proxy(begin)] of external.c and
    [launch_managed_proxy()] of managed.c, recorded as events. *)
Definition launch_external_proxy (begin : list string) : M Z :=
  emit (EvLaunchExternal begin) ;;
  ret (launch_external_proxy_rc C begin).

Definition launch_managed_proxy : M Z :=
  emit EvLaunchManaged ;;
  ret (launch_managed_proxy_rc C).

(** The locals of [handle_obfsproxy_args]. *)
Record locals := { logfile_set : Z; logsev_set : Z; i : Z }.

(** The body of the [while] loop of [handle_obfsproxy_args] up to, and
    without, [i++]: [arg] is [argv[i]]. *)
Definition handle_option (arg : string) (l : locals) : M locals :=
  if strncmp arg "--log-file=" 11 =? 0 then
    (if negb (logfile_set l =? 0)
     then log_error "You've already set a log file!" else ret tt) ;;
    rc <- log_set_method LOG_METHOD_FILE (Some (str_offset 11 arg)) ;;
    (if rc <? 0 then log_error "Failed creating logfile." else ret tt) ;;
    ret {| logfile_set := 1; logsev_set := logsev_set l; i := i l |}
  else if strncmp arg "--log-min-severity=" 19 =? 0 then
    (if negb (logsev_set l =? 0)
     then log_error "You've already set a min. log severity!"
     else ret tt) ;;
    rc <- log_set_min_severity (str_offset 19 arg) ;;
    (if rc <? 0 then log_error "Error at setting logging severity"
     else ret tt) ;;
    ret {| logfile_set := logfile_set l; logsev_set := 1; i := i l |}
  else if strncmp arg "--no-log" 9 =? 0 then
    (if negb (logsev_set l =? 0)
     then printf ("You've already set a min. log severity!" ++ nl) ;;
          exit 1
     else ret tt) ;;
    rc <- log_set_method LOG_METHOD_NULL None ;;
    (if rc <? 0
     then printf ("Error at setting logging severity." ++ nl) ;; exit 1
     else ret tt) ;;
    ret {| logfile_set := logfile_set l; logsev_set := 1; i := i l |}
  else if strncmp arg "--no-safe-logging" 18 =? 0 then
    set_safe_logging 0 ;;
    ret l
  else if strncmp arg "--managed" 10 =? 0 then
    set_is_external_proxy 0 ;;
    ret l
  else
    log_error ("Unrecognizable obfsproxy argument '" ++ arg ++ "'").

(** The [while] loop: [rest] is [argv + i], and the end of the list
    is the NULL that ends [argv]. *)
Fixpoint scan_args (rest : list string) (l : locals) : M locals :=
  match rest with
  | [] => ret l
  | arg :: rest' =>
      if strncmp arg "--" 2 =? 0 then
        l' <- handle_option arg l ;;
        scan_args rest'
          {| logfile_set := logfile_set l';
             logsev_set := logsev_set l';
             i := i l' + 1 |}
      else ret l
  end.

(** [static int handle_obfsproxy_args(const char *const *argv)];
    [argv[0]] is the program name. *)
Definition handle_obfsproxy_args (argv : list string) : M Z :=
  l <- scan_args (skipn 1 argv)
         {| logfile_set := 0; logsev_set := 0; i := 1 |} ;;
  ext <- read is_external_proxy ;;
  (if (ext =? 0) && (logfile_set l =? 0) && negb (logsev_set l =? 0) then
     printf ("obfsproxy in managed proxy mode can only log to a file."
             ++ nl) ;;
     exit 1
   else if (ext =? 0) && (logfile_set l =? 0) then
     rc <- log_set_method LOG_METHOD_NULL None ;;
     if rc <? 0
     then printf ("Error at setting logging severity." ++ nl) ;; exit 1
     else ret tt
   else ret tt) ;;
  ret (i l).

(** [int obfs_main(int argc, const char *const *argv)]. *)
Definition obfs_main (argc : Z) (argv : list string) : M Z :=
  skip <- handle_obfsproxy_args argv ;;
  let begin := skipn (Z.to_nat skip) argv in
  log_notice "Starting." ;;
  ext <- read is_external_proxy ;;
  if negb (ext =? 0) then
    rc <- launch_external_proxy begin ;;
    if rc <? 0 then ret 1 else ret 0
  else
    rc <- launch_managed_proxy ;;
    if rc <? 0 then ret 1 else ret 0.

(** The exit code of the process: [obfs_main]'s return value, or the
    argument of the [exit] that ended it. *)
Definition exit_code (o : outcome Z) : Z :=
  match o with Ret rc _ => rc | Exit c _ => c end.

(** The process run on [argv] from its start state. *)
Definition run_obfsproxy (argv : list string) : outcome Z :=
  obfs_main (Z.of_nat (List.length argv)) argv initial_world.

End Main.

(** Events that start a subsystem: the two launchers, which are the
    only way from [obfs_main] into initialization. *)
Definition is_launch (e : event) : bool :=
  match e with
  | EvLaunchExternal _ | EvLaunchManaged => true
  | _ => false
  end.

(** The diagnostics of a configuration conflict: a second log file, a
    second severity setting, and managed mode logging elsewhere than to
    a file. *)
Definition is_config_conflict (e : event) : bool :=
  match e with
  | EvLogError msg =>
      (msg =? "You've already set a log file!")%string
      || (msg =? "You've already set a min. log severity!")%string
  | EvPrintf msg =>
      (msg =? "You've already set a min. log severity!" ++ nl)%string
      || (msg =? "obfsproxy in managed proxy mode can only log to a file."
                 ++ nl)%string
  | _ => false
  end.

(** Classification of the arguments by the tests of [handle_option]. *)
Definition is_option (arg : string) : bool := strncmp arg "--" 2 =? 0.
Definition is_log_file_opt (arg : string) : bool :=
  strncmp arg "--log-file=" 11 =? 0.
Definition is_min_severity_opt (arg : string) : bool :=
  strncmp arg "--log-min-severity=" 19 =? 0.
Definition is_no_log_opt (arg : string) : bool :=
  strncmp arg "--no-log" 9 =? 0.
Definition is_severity_setting (arg : string) : bool :=
  is_min_severity_opt arg || is_no_log_opt arg.
Definition is_no_safe_logging_opt (arg : string) : bool :=
  strncmp arg "--no-safe-logging" 18 =? 0.
Definition is_managed_opt (arg : string) : bool :=
  strncmp arg "--managed" 10 =? 0.

(** The five tests exclude each other, so the classification of an
    argument tells which branch of [handle_option] runs. *)
Inductive option_kind (a : string) : Prop :=
| KLogFile :
    is_log_file_opt a = true -> is_min_severity_opt a = false ->
    is_no_log_opt a = false -> is_no_safe_logging_opt a = false ->
    is_managed_opt a = false -> is_option a = true -> option_kind a
| KMinSeverity :
    is_log_file_opt a = false -> is_min_severity_opt a = true ->
    is_no_log_opt a = false -> is_no_safe_logging_opt a = false ->
    is_managed_opt a = false -> is_option a = true -> option_kind a
| KNoLog :
    is_log_file_opt a = false -> is_min_severity_opt a = false ->
    is_no_log_opt a = true -> is_no_safe_logging_opt a = false ->
    is_managed_opt a = false -> is_option a = true -> option_kind a
| KNoSafeLogging :
    is_log_file_opt a = false -> is_min_severity_opt a = false ->
    is_no_log_opt a = false -> is_no_safe_logging_opt a = true ->
    is_managed_opt a = false -> is_option a = true -> option_kind a
| KManaged :
    is_log_file_opt a = false -> is_min_severity_opt a = false ->
    is_no_log_opt a = false -> is_no_safe_logging_opt a = false ->
    is_managed_opt a = true -> is_option a = true -> option_kind a
| KOther :
    is_log_file_opt a = false -> is_min_severity_opt a = false ->
    is_no_log_opt a = false -> is_no_safe_logging_opt a = false ->
    is_managed_opt a = false -> option_kind a.

(** The leading run of arguments that begin with "--", and what follows
    it. *)
Fixpoint option_prefix (args : list string) : list string :=
  match args with
  | [] => []
  | a :: args' => if is_option a then a :: option_prefix args' else []
  end.

Fixpoint remainder (args : list string) : list string :=
  match args with
  | [] => []
  | a :: args' => if is_option a then remainder args' else args
  end.

(** The mode [obfs_main] switches into after the options are handled:
    it tests [is_external_proxy] and passes [begin] to the external
    launcher only. *)
Inductive ProxyMode :=
| External (remaining : list string)
| Managed.

Definition proxy_mode (w : world) (begin : list string) : ProxyMode :=
  if negb (is_external_proxy w =? 0) then External begin else Managed.

(** The diagnostic printed when managed mode would log elsewhere than
    to a file. *)
Definition managed_conflict_msg : string :=
  "obfsproxy in managed proxy mode can only log to a file." ++ nl.

(** Collaborators whose every call succeeds. *)
Definition all_succeed : collaborators :=
  {| log_set_method_rc := fun _ _ => 0;
     log_set_min_severity_rc := fun _ => 0;
     launch_external_proxy_rc := fun _ => 0;
     launch_managed_proxy_rc := 0 |}.

(** The locals at the first test of the [while] loop. *)
Definition locals0 : locals :=
  {| logfile_set := 0; logsev_set := 0; i := 1 |}.

(** A SIGTERM is delivered before the first SIGINT of [sigs]. *)
Fixpoint sigterm_before_sigint (sigs : list Z) : bool :=
  match sigs with
  | [] => false
  | s :: sigs' =>
      if s =? SIGINT then false
      else if s =? SIGTERM then existsb is_sigint sigs'
      else sigterm_before_sigint sigs'
  end.

(** Each phase of the list is at least the one before it. *)
Fixpoint never_backward (ps : list ShutdownState) : Prop :=
  match ps with
  | [] => True
  | p :: ps' =>
      match ps' with
      | [] => True
      | q :: _ => (phase_rank p <= phase_rank q)%nat
      end /\ never_backward ps'
  end.

From Stdlib Require Import Permutation.

(* ================================================================== *)
(** ** Start-up, tear-down and usage *)

(** The functions an event can be registered with. *)
Inductive callback := cb_handle_signal_cb | cb_heartbeat_cb.

(** A call that leaves main.c, or ([CMain]) one of the events above. *)
Inductive call :=
| CMain (e : event)
| CStderr (text : string)
| CInitializeCrypto
| CEventBaseNew
| CInitEvdnsBase (base : Z)
| CSignalIgnore (signum : Z)
| CEvsignalNew (base signum : Z) (cb : callback)
| CEventNew (base fd what : Z) (cb : callback)
| CEventAdd (ev : Z) (timeout : option (Z * Z))
| CStatusInit
| CStatusLogHeartbeat
| CGetEvdnsBase
| CEvdnsBaseFree (dns fail_requests : Z)
| CEventFree (ev : Z)
| CEventBaseFree (base : Z)
| CCleanupCrypto
| CStatusConnectionsCleanup
| CCloseObfsproxyLogfile.

(** The process state of before together with the four static pointers
    of main.c (0 is NULL) and the calls made so far, in order. *)
Record lifecycle := {
  proc : world;
  the_event_base : Z;
  sig_int : Z;
  sig_term : Z;
  heartbeat : Z;
  calls : list call
}.

(** The state at process start: the statics are zero-initialized. *)
Definition initial_lifecycle : lifecycle :=
  {| proc := initial_world; the_event_base := 0; sig_int := 0;
     sig_term := 0; heartbeat := 0; calls := [] |}.

Inductive loutcome (A : Type) :=
| LRet (a : A) (s : lifecycle)
| LExit (code : Z) (s : lifecycle).
Arguments LRet {A} a s.
Arguments LExit {A} code s.

Definition LM (A : Type) : Type := lifecycle -> loutcome A.

Definition lret {A} (a : A) : LM A := fun s => LRet a s.

Definition lbind {A B} (m : LM A) (k : A -> LM B) : LM B :=
  fun s => match m s with
           | LRet a s' => k a s'
           | LExit c s' => LExit c s'
           end.

Definition lifecycle_of {A} (o : loutcome A) : lifecycle :=
  match o with LRet _ s => s | LExit _ s => s end.

(** The calls a computation appended to those of [s]. *)
Definition made {A} (m : LM A) (s : lifecycle) : list call :=
  skipn (List.length (calls s)) (calls (lifecycle_of (m s))).

Definition lread {A} (f : lifecycle -> A) : LM A := fun s => LRet (f s) s.

(** [exit(code)]. *)
Definition lexit {A} (code : Z) : LM A := fun s => LExit code s.

Definition do_call (c : call) : LM unit :=
  fun s => LRet tt
    {| proc := proc s; the_event_base := the_event_base s;
       sig_int := sig_int s; sig_term := sig_term s;
       heartbeat := heartbeat s; calls := calls s ++ [c] |}.

Definition set_the_event_base (v : Z) : LM unit :=
  fun s => LRet tt
    {| proc := proc s; the_event_base := v;
       sig_int := sig_int s; sig_term := sig_term s;
       heartbeat := heartbeat s; calls := calls s |}.

Definition set_sig_int (v : Z) : LM unit :=
  fun s => LRet tt
    {| proc := proc s; the_event_base := the_event_base s;
       sig_int := v; sig_term := sig_term s;
       heartbeat := heartbeat s; calls := calls s |}.

Definition set_sig_term (v : Z) : LM unit :=
  fun s => LRet tt
    {| proc := proc s; the_event_base := the_event_base s;
       sig_int := sig_int s; sig_term := v;
       heartbeat := heartbeat s; calls := calls s |}.

Definition set_heartbeat (v : Z) : LM unit :=
  fun s => LRet tt
    {| proc := proc s; the_event_base := the_event_base s;
       sig_int := sig_int s; sig_term := sig_term s;
       heartbeat := v; calls := calls s |}.

(** Running a computation of the first kind: its events are appended to
    the calls, and an [exit] inside it ends the process. *)
Definition lift {A} (m : M A) : LM A :=
  fun s =>
    let s' := {| proc := world_of (m (proc s));
                 the_event_base := the_event_base s;
                 sig_int := sig_int s; sig_term := sig_term s;
                 heartbeat := heartbeat s;
                 calls := calls s ++ map CMain (emitted m (proc s)) |} in
    match m (proc s) with
    | Ret a _ => LRet a s'
    | Exit c _ => LExit c s'
    end.

(** The state [s] after the calls [cs]. *)
Definition after_calls (s : lifecycle) (cs : list call) : lifecycle :=
  {| proc := proc s; the_event_base := the_event_base s;
     sig_int := sig_int s; sig_term := sig_term s;
     heartbeat := heartbeat s; calls := calls s ++ cs |}.

(** <signal.h> and <event2/event.h>. *)
Definition SIGPIPE : Z := 13.
Definition EV_PERSIST : Z := 16.

(** What libevent and the other modules answer: return codes and the
    pointers they hand out (0 is NULL). *)
Record libraries := {
  initialize_crypto_rc : Z;
  event_base_new_ptr : Z;
  init_evdns_base_rc : Z -> Z;
  evsignal_new_ptr : Z -> Z -> Z;
  event_new_ptr : Z -> Z -> Z -> Z;
  event_add_rc : Z -> option (Z * Z) -> Z;
  get_evdns_base_ptr : Z
}.

Declare Scope life_scope.
Delimit Scope life_scope with life.
Notation "x <- m ;; k" := (lbind m (fun x => k))
  (at level 61, m at next level, right associativity) : life_scope.
Notation "m ;; k" := (lbind m (fun _ => k))
  (at level 61, right associativity) : life_scope.

Section Lifecycle.

Local Open Scope life_scope.

Variable L : libraries.

(** The calls out of main.c, each recorded and answered by [L]. *)
Definition initialize_crypto : LM Z :=
  do_call CInitializeCrypto ;; lret (initialize_crypto_rc L).

Definition event_base_new : LM Z :=
  do_call CEventBaseNew ;; lret (event_base_new_ptr L).

Definition init_evdns_base (base : Z) : LM Z :=
  do_call (CInitEvdnsBase base) ;; lret (init_evdns_base_rc L base).

Definition evsignal_new (base signum : Z) (cb : callback) : LM Z :=
  do_call (CEvsignalNew base signum cb) ;;
  lret (evsignal_new_ptr L base signum).

Definition event_new (base fd what : Z) (cb : callback) : LM Z :=
  do_call (CEventNew base fd what cb) ;;
  lret (event_new_ptr L base fd what).

Definition event_add (ev : Z) (timeout : option (Z * Z)) : LM Z :=
  do_call (CEventAdd ev timeout) ;; lret (event_add_rc L ev timeout).

Definition get_evdns_base : LM Z :=
  do_call CGetEvdnsBase ;; lret (get_evdns_base_ptr L).

(** [struct event_base *get_event_base(void)]. *)
Definition get_event_base : LM Z := lread the_event_base.

(** [static void heartbeat_cb(evutil_socket_t fd, short what,
    void *arg)]: the arguments are unused. *)
Definition heartbeat_cb (fd what : Z) : LM unit :=
  do_call CStatusLogHeartbeat.

(** [void obfsproxy_init()], built without [_WIN32] and with [SIGPIPE]
    defined. *)
Definition obfsproxy_init : LM unit :=
  rc <- initialize_crypto ;;
  (if rc <? 0
   then lift (log_error "Failed to initialize cryptography.")
   else lret tt) ;;
  b <- event_base_new ;;
  set_the_event_base b ;;
  b <- lread the_event_base ;;
  (if b =? 0
   then lift (log_error "Failed to initialize networking.")
   else lret tt) ;;
  b <- lread the_event_base ;;
  rc <- init_evdns_base b ;;
  (if negb (rc =? 0)
   then lift (log_error "Failed to initialize DNS resolver.")
   else lret tt) ;;
  do_call (CSignalIgnore SIGPIPE) ;;
  b <- lread the_event_base ;;
  e <- evsignal_new b SIGINT cb_handle_signal_cb ;;
  set_sig_int e ;;
  b <- lread the_event_base ;;
  e <- evsignal_new b SIGTERM cb_handle_signal_cb ;;
  set_sig_term e ;;
  e <- lread sig_int ;;
  r1 <- event_add e None ;;
  failed <- (if negb (r1 =? 0) then lret true
             else e <- lread sig_term ;;
                  r2 <- event_add e None ;;
                  lret (negb (r2 =? 0))) ;;
  (if (failed : bool)
   then lift (log_error "Failed to initialize signal handling.")
   else lret tt) ;;
  let one_hour := (3600, 0) in
  do_call CStatusInit ;;
  b <- lread the_event_base ;;
  e <- event_new b (-1) EV_PERSIST cb_heartbeat_cb ;;
  set_heartbeat e ;;
  e <- lread heartbeat ;;
  rc <- event_add e (Some one_hour) ;;
  if negb (rc =? 0)
  then lift (log_error "Failed to initialize heartbeat logs.")
  else lret tt.

(** [void obfsproxy_cleanup()]. *)
Definition obfsproxy_cleanup : LM unit :=
  lift (log_notice "Exiting.") ;;
  lift close_all_listeners ;;
  d <- get_evdns_base ;;
  do_call (CEvdnsBaseFree d 0) ;;
  e <- lread sig_int ;;
  do_call (CEventFree e) ;;
  e <- lread sig_term ;;
  do_call (CEventFree e) ;;
  e <- lread heartbeat ;;
  (if negb (e =? 0) then do_call (CEventFree e) else lret tt) ;;
  b <- get_event_base ;;
  do_call (CEventBaseFree b) ;;
  do_call CCleanupCrypto ;;
  do_call CStatusConnectionsCleanup ;;
  do_call CCloseObfsproxyLogfile.

End Lifecycle.

(** The three pieces of text [usage] writes to stderr. *)
Definition usage_head : string :=
  "Usage: obfsproxy [obfsproxy_args] protocol_name [protocol_args] "
  ++ "protocol_options protocol_name ..." ++ nl
  ++ "* Available protocols:" ++ nl.

Definition usage_protocol (p : protocol_vtable) : string :=
  "[" ++ name p ++ "] ".

Definition usage_tail : string :=
  nl ++ "* obfsproxy_args:" ++ nl
  ++ "--log-file=<file> ~ set logfile" ++ nl
  ++ "--log-min-severity=warn|notice|info|debug ~ "
  ++ "set minimum logging severity (default: notice)" ++ nl
  ++ "--no-log ~ disable logging" ++ nl
  ++ "--no-safe-logging ~ disable safe (scrubbed address) logging" ++ nl.

Section Usage.

Local Open Scope life_scope.

(** The table of protocol.c, a parameter as for
    [is_supported_protocol]. *)
Variable supported_protocols : list protocol_vtable.

(** The [for] loop of [usage], from entry [i] on. *)
Fixpoint usage_protocols_from (tbl : list protocol_vtable) : LM unit :=
  match tbl with
  | [] => lret tt
  | p :: tbl' =>
      do_call (CStderr (usage_protocol p)) ;; usage_protocols_from tbl'
  end.

(** [void usage(void)]; it does not return. *)
Definition usage {A} : LM A :=
  do_call (CStderr usage_head) ;;
  usage_protocols_from supported_protocols ;;
  do_call (CStderr usage_tail) ;;
  lexit 1.

End Usage.

(** Pure readings of an argument list, used to state what the option
    scan leaves behind. *)
Definition is_sigterm (s : Z) : bool := s =? SIGTERM.

(** An error message: what [log_error] records or a failing branch
    prints before [exit(1)]. *)
Definition is_diagnostic (e : event) : bool :=
  match e with
  | EvLogError _ | EvPrintf _ => true
  | _ => false
  end.

Definition is_recognized (arg : string) : bool :=
  is_log_file_opt arg || is_min_severity_opt arg || is_no_log_opt arg
  || is_no_safe_logging_opt arg || is_managed_opt arg.

(** The destination after [arg], when it was [d] before. *)
Definition destination_after (d : log_destination) (arg : string)
  : log_destination :=
  if is_log_file_opt arg then File (str_offset 11 arg)
  else if is_no_log_opt arg then NullSink
  else d.

(** The minimum severity after [arg], when it was [m] before. *)
Definition severity_after (m : option string) (arg : string)
  : option string :=
  if is_min_severity_opt arg then Some (str_offset 19 arg) else m.

(** Libraries whose every call succeeds and that hand out the pointers
    1 (the event base), 2 and 3 (the signal events), 4 (the heartbeat
    event) and 5 (the resolver). *)
Definition libraries_ok : libraries :=
  {| initialize_crypto_rc := 0;
     event_base_new_ptr := 1;
     init_evdns_base_rc := fun _ => 0;
     evsignal_new_ptr := fun _ signum => if signum =? SIGINT then 2 else 3;
     event_new_ptr := fun _ _ _ => 4;
     event_add_rc := fun _ _ => 0;
     get_evdns_base_ptr := 5 |}.

(** The state [s] after computations of the first kind emitted [evs]. *)
Definition after_events (s : lifecycle) (evs : list event) : lifecycle :=
  {| proc := after_signal (proc s) (got_sigint (proc s)) evs;
     the_event_base := the_event_base s;
     sig_int := sig_int s; sig_term := sig_term s;
     heartbeat := heartbeat s;
     calls := calls s ++ map CMain evs |}.

(** The calls of an [obfsproxy_init] that gets through, in order. *)
Definition init_sequence (L : libraries) : list call :=
  let b := event_base_new_ptr L in
  [CInitializeCrypto;
   CEventBaseNew;
   CInitEvdnsBase b;
   CSignalIgnore SIGPIPE;
   CEvsignalNew b SIGINT cb_handle_signal_cb;
   CEvsignalNew b SIGTERM cb_handle_signal_cb;
   CEventAdd (evsignal_new_ptr L b SIGINT) None;
   CEventAdd (evsignal_new_ptr L b SIGTERM) None;
   CStatusInit;
   CEventNew b (-1) EV_PERSIST cb_heartbeat_cb;
   CEventAdd (event_new_ptr L b (-1) EV_PERSIST) (Some (3600, 0))].

(** The state after the first [k] of these calls: a static pointer
    holds what its call returned once that call is among them. *)
Definition init_progress (L : libraries) (s : lifecycle) (k : nat)
  : lifecycle :=
  let b := event_base_new_ptr L in
  {| proc := proc s;
     the_event_base := if (k <? 2)%nat then the_event_base s else b;
     sig_int := if (k <? 5)%nat then sig_int s
                else evsignal_new_ptr L b SIGINT;
     sig_term := if (k <? 6)%nat then sig_term s
                 else evsignal_new_ptr L b SIGTERM;
     heartbeat := if (k <? 10)%nat then heartbeat s
                  else event_new_ptr L b (-1) EV_PERSIST;
     calls := calls s ++ firstn k (init_sequence L) |}.

(** The first step of [obfsproxy_init] that fails under [L], as the
    number of calls made up to and including it, with the message
    logged for it. *)
Definition init_failure (L : libraries) : option (nat * string) :=
  let b := event_base_new_ptr L in
  if initialize_crypto_rc L <? 0
  then Some (1%nat, "Failed to initialize cryptography.")
  else if b =? 0
  then Some (2%nat, "Failed to initialize networking.")
  else if negb (init_evdns_base_rc L b =? 0)
  then Some (3%nat, "Failed to initialize DNS resolver.")
  else if negb (event_add_rc L (evsignal_new_ptr L b SIGINT) None =? 0)
  then Some (7%nat, "Failed to initialize signal handling.")
  else if negb (event_add_rc L (evsignal_new_ptr L b SIGTERM) None =? 0)
  then Some (8%nat, "Failed to initialize signal handling.")
  else if negb (event_add_rc L (event_new_ptr L b (-1) EV_PERSIST)
                  (Some (3600, 0)) =? 0)
  then Some (11%nat, "Failed to initialize heartbeat logs.")
  else None.

(** The calls of [obfsproxy_cleanup] in state [s], in order. *)
Definition cleanup_sequence (L : libraries) (s : lifecycle) : list call :=
  [CMain (EvLogNotice "Exiting.");
   CMain EvCloseAllListeners;
   CGetEvdnsBase;
   CEvdnsBaseFree (get_evdns_base_ptr L) 0;
   CEventFree (sig_int s);
   CEventFree (sig_term s)]
  ++ (if heartbeat s =? 0 then [] else [CEventFree (heartbeat s)])
  ++ [CEventBaseFree (the_event_base s);
      CCleanupCrypto;
      CStatusConnectionsCleanup;
      CCloseObfsproxyLogfile].

(** The calls that release a libevent object. *)
Definition is_release (c : call) : bool :=
  match c with
  | CEventFree _ | CEventBaseFree _ => true
  | _ => false
  end.

(** The logging module accepts the setting that [arg] asks for, if it
    asks for one. *)
Definition setting_accepted (C : collaborators) (arg : string) : Prop :=
  (is_log_file_opt arg = true ->
   0 <= log_set_method_rc C LOG_METHOD_FILE (Some (str_offset 11 arg)))
  /\ (is_min_severity_opt arg = true ->
      0 <= log_set_min_severity_rc C (str_offset 19 arg))
  /\ (is_no_log_opt arg = true ->
      0 <= log_set_method_rc C LOG_METHOD_NULL None).

(** The conditions under which a leading run of options is accepted. *)
Definition options_acceptable (C : collaborators) (pre : list string)
  : Prop :=
  Forall (fun a => is_recognized a = true) pre
  /\ (List.length (filter is_log_file_opt pre) <= 1)%nat
  /\ (List.length (filter is_severity_setting pre) <= 1)%nat
  /\ Forall (setting_accepted C) pre
  /\ (existsb is_managed_opt pre = true ->
      existsb is_log_file_opt pre = false ->
      existsb is_severity_setting pre = false
      /\ 0 <= log_set_method_rc C LOG_METHOD_NULL None).

(* ================================================================== *)
(** * Properties *)

(** ** Strings *)

Lemma byte_cmp_eq (c1 c2 : ascii) : byte_cmp c1 c2 = 0 <-> c1 = c2.
Proof.
  unfold byte_cmp.
  destruct (N.compare_spec (N_of_ascii c1) (N_of_ascii c2)) as [E|L|L].
  - split; [intros _|reflexivity].
    rewrite <- (ascii_N_embedding c1), <- (ascii_N_embedding c2), E.
    reflexivity.
  - split; [discriminate|intros ->; lia].
  - split; [discriminate|intros ->; lia].
Qed.

Lemma byte_cmp_refl (c : ascii) : byte_cmp c c = 0.
Proof. apply byte_cmp_eq; reflexivity. Qed.

Lemma strcmp_eq (s1 s2 : string) : strcmp s1 s2 = 0 <-> s1 = s2.
Proof.
  revert s2; induction s1 as [|c1 r1 IH]; intros [|c2 r2]; simpl;
    try (split; [discriminate|discriminate]); try tauto.
  destruct (byte_cmp c1 c2 =? 0) eqn:E.
  - apply Z.eqb_eq, byte_cmp_eq in E; subst c2.
    rewrite IH; split; [intros ->; reflexivity|intros [=]; assumption].
  - apply Z.eqb_neq in E; split; [contradiction|].
    intros [= -> _]; elim E; apply byte_cmp_refl.
Qed.

(** Comparing as many bytes as the pattern has tests for a prefix. *)
Lemma strncmp_prefix (p s : string) :
  strncmp s p (String.length p) = 0 <-> exists r, s = (p ++ r)%string.
Proof.
  revert s; induction p as [|c p IH]; intros s; simpl.
  - split; [intros _; exists s; reflexivity|reflexivity].
  - destruct s as [|d s].
    + split; [discriminate|intros [r [=]]].
    + destruct (byte_cmp d c =? 0) eqn:E.
      * apply Z.eqb_eq, byte_cmp_eq in E; subst d.
        rewrite IH; split; intros [r Hr]; exists r;
          [rewrite Hr; reflexivity|injection Hr as Hr; exact Hr].
      * apply Z.eqb_neq in E; split; [contradiction|].
        intros [r [= -> _]]; elim E; apply byte_cmp_refl.
Qed.

(** Comparing one byte more, the terminating NUL, tests for equality. *)
Lemma strncmp_exact (p s : string) :
  strncmp s p (S (String.length p)) = 0 <-> s = p.
Proof.
  revert s; induction p as [|c p IH]; intros s.
  - destruct s; simpl; split; try reflexivity; discriminate.
  - destruct s as [|d s].
    + simpl; split; discriminate.
    + change (strncmp (String d s) (String c p)
                (S (String.length (String c p))))
        with (if byte_cmp d c =? 0
              then strncmp s p (S (String.length p)) else byte_cmp d c).
      destruct (byte_cmp d c =? 0) eqn:E.
      * apply Z.eqb_eq, byte_cmp_eq in E; subst d.
        rewrite IH; split; [intros ->; reflexivity|intros [=]; assumption].
      * apply Z.eqb_neq in E; split; [contradiction|].
        intros [= -> _]; elim E; apply byte_cmp_refl.
Qed.

(** ** Protocol registry *)

Lemma is_supported_protocol_from_range nm tbl :
  is_supported_protocol_from nm tbl = 0
  \/ is_supported_protocol_from nm tbl = 1.
Proof.
  induction tbl as [|p tbl IH]; simpl; [left; reflexivity|].
  destruct (strcmp nm (name p) =? 0); [right; reflexivity|exact IH].
Qed.

Lemma is_supported_protocol_from_found nm tbl :
  is_supported_protocol_from nm tbl = 1
  <-> exists p, In p tbl /\ name p = nm.
Proof.
  induction tbl as [|p tbl IH]; simpl.
  - split; [discriminate|intros [p [[] _]]].
  - destruct (strcmp nm (name p) =? 0) eqn:E.
    + apply Z.eqb_eq, strcmp_eq in E.
      split; [intros _; exists p; split; [left; reflexivity|congruence]
             |reflexivity].
    + apply Z.eqb_neq in E. rewrite IH.
      split; intros [q [Hq Hn]].
      * exists q; split; [right; exact Hq|exact Hn].
      * destruct Hq as [->|Hq].
        -- elim E; apply strcmp_eq; congruence.
        -- exists q; split; assumption.
Qed.

(** C9: [is_supported_protocol(name)] returns 1 exactly when some entry
    of the table has a name equal, byte for byte, to [name]; it returns
    0 for every other name, the empty string included, and a name that
    differs only in case is another name. *)
Theorem is_supported_protocol_iff (tbl : list protocol_vtable) :
  (forall nm,
      (is_supported_protocol tbl nm = 1
       <-> exists p, In p tbl /\ name p = nm)
      /\ (is_supported_protocol tbl nm = 0
          <-> ~ exists p, In p tbl /\ name p = nm))
  /\ ((~ exists p, In p tbl /\ name p = "")
      -> is_supported_protocol tbl "" = 0)
  /\ is_supported_protocol [{| name := "obfs2" |}] "obfs2" = 1
  /\ is_supported_protocol [{| name := "obfs2" |}] "OBFS2" = 0
  /\ is_supported_protocol [{| name := "obfs2" |}] "" = 0.
Proof.
  assert (H : forall nm,
             (is_supported_protocol tbl nm = 1
              <-> exists p, In p tbl /\ name p = nm)
             /\ (is_supported_protocol tbl nm = 0
                 <-> ~ exists p, In p tbl /\ name p = nm)).
  { intros nm; unfold is_supported_protocol.
    pose proof (is_supported_protocol_from_found nm tbl) as F.
    split; [exact F|].
    destruct (is_supported_protocol_from_range nm tbl) as [R|R];
      rewrite R in *.
    - split; [intros _ Hp; apply F in Hp; discriminate|reflexivity].
    - split; [discriminate|intros N; elim N; apply F; reflexivity]. }
  split; [exact H|].
  split; [intros N; apply (H ""); exact N|].
  repeat split.
Qed.

(** ** Signal handling *)

Lemma after_signal_id w : after_signal w (got_sigint w) [] = w.
Proof. destruct w; unfold after_signal; simpl; rewrite app_nil_r; reflexivity. Qed.

Lemma skipn_length_app {A} (t evs : list A) :
  skipn (List.length t) (t ++ evs) = evs.
Proof. induction t; simpl; auto. Qed.

Lemma emitted_after_signal {A} (m : M A) w a g evs :
  m w = Ret a (after_signal w g evs) -> emitted m w = evs.
Proof.
  intros H; unfold emitted; rewrite H; simpl; apply skipn_length_app.
Qed.

(** What one call of the handler does, branch by branch. *)
Lemma handle_signal_cb_first_sigint what w :
  got_sigint w = 0 ->
  handle_signal_cb SIGINT what w =
  Ret tt (after_signal w 1
            [EvCloseAllListeners;
             EvLogNotice "Got SIGINT. Preparing shutdown.";
             EvStartShutdown 0]).
Proof.
  intros G; unfold handle_signal_cb, bind, read, close_all_listeners,
    log_notice, start_shutdown, set_got_sigint, emit, ret, bind; simpl.
  rewrite G; simpl; unfold after_signal; simpl.
  rewrite <- !app_assoc; reflexivity.
Qed.

Lemma handle_signal_cb_later_sigint what w :
  got_sigint w <> 0 ->
  handle_signal_cb SIGINT what w =
  Ret tt (after_signal w (got_sigint w)
            (EvCloseAllListeners
             :: EvLogNotice "Got SIGINT for the second time. Terminating."
             :: immediate_events)).
Proof.
  intros G; apply Z.eqb_neq in G.
  unfold handle_signal_cb, bind, read, close_all_listeners, log_notice,
    start_shutdown, finish_shutdown, log_debug, emit, ret, bind; simpl.
  rewrite G; simpl; unfold after_signal; simpl.
  rewrite <- !app_assoc; reflexivity.
Qed.

Lemma handle_signal_cb_sigterm what w :
  handle_signal_cb SIGTERM what w =
  Ret tt (after_signal w (got_sigint w)
            (EvLogNotice "Got SIGTERM. Terminating." :: immediate_events)).
Proof.
  unfold handle_signal_cb, bind, log_notice, start_shutdown,
    finish_shutdown, log_debug, emit, ret, bind; simpl.
  unfold after_signal; simpl.
  rewrite <- !app_assoc; reflexivity.
Qed.

Lemma handle_signal_cb_other s what w :
  s <> SIGINT -> s <> SIGTERM -> handle_signal_cb s what w = Ret tt w.
Proof.
  intros H1 H2; apply Z.eqb_neq in H1, H2.
  unfold handle_signal_cb; rewrite H1, H2; reflexivity.
Qed.

(** Every call returns, only counts the first SIGINT, and only appends
    to the trace. *)
Lemma handle_signal_cb_returns s what w :
  exists g evs,
    handle_signal_cb s what w = Ret tt (after_signal w g evs)
    /\ (g = got_sigint w \/ (got_sigint w = 0 /\ g = 1 /\ s = SIGINT)).
Proof.
  destruct (Z.eq_dec s SIGINT) as [->|N1].
  - destruct (Z.eq_dec (got_sigint w) 0) as [G|G].
    + eexists _, _; split;
        [apply handle_signal_cb_first_sigint; exact G|right; auto].
    + eexists _, _; split;
        [apply handle_signal_cb_later_sigint; exact G|left; reflexivity].
  - destruct (Z.eq_dec s SIGTERM) as [->|N2].
    + eexists _, _; split; [apply handle_signal_cb_sigterm|left; reflexivity].
    + exists (got_sigint w), []; rewrite after_signal_id; split;
        [apply handle_signal_cb_other; assumption|left; reflexivity].
Qed.

Lemma shutdown_state_running w :
  shutdown_state w = Running
  <-> existsb is_immediate (output w) = false /\ got_sigint w = 0.
Proof.
  unfold shutdown_state.
  destruct (existsb is_immediate (output w)); [split; [discriminate|intros [[=] _]]|].
  destruct (got_sigint w =? 0) eqn:G.
  - apply Z.eqb_eq in G; tauto.
  - apply Z.eqb_neq in G; split; [discriminate|tauto].
Qed.

Lemma shutdown_state_terminating w :
  shutdown_state w = Terminating
  <-> existsb is_immediate (output w) = true.
Proof.
  unfold shutdown_state.
  destruct (existsb is_immediate (output w)); [tauto|].
  destruct (got_sigint w =? 0); split; discriminate.
Qed.

Lemma shutdown_state_after_immediate w g evs :
  existsb is_immediate evs = true ->
  shutdown_state (after_signal w g evs) = Terminating.
Proof.
  intros H; apply shutdown_state_terminating; simpl.
  rewrite existsb_app, H; apply orb_true_r.
Qed.

(** C4: in state Running one SIGINT closes the listeners exactly once,
    asks for a graceful shutdown, does not ask the event loop to exit,
    and leaves the state Draining; a second SIGINT leaves the state
    Terminating, and the loop exit is requested exactly once over the
    two deliveries, by the second. *)
Theorem sigint_once_then_twice (w : world) :
  shutdown_state w = Running ->
  let first := handle_signal_cb SIGINT EV_SIGNAL in
  let w1 := world_of (deliver [SIGINT] w) in
  let w2 := world_of (deliver [SIGINT; SIGINT] w) in
  (deliver [SIGINT] w = Ret tt w1
   /\ shutdown_state w1 = Draining
   /\ count is_close_listeners (emitted (deliver [SIGINT]) w) = 1%nat
   /\ count is_graceful (emitted (deliver [SIGINT]) w) = 1%nat
   /\ count is_immediate (emitted (deliver [SIGINT]) w) = 0%nat
   /\ count is_loop_exit (emitted (deliver [SIGINT]) w) = 0%nat)
  /\ (deliver [SIGINT; SIGINT] w = Ret tt w2
      /\ shutdown_state w2 = Terminating
      /\ count is_loop_exit (emitted (deliver [SIGINT; SIGINT]) w) = 1%nat
      /\ count is_loop_exit (emitted first w) = 0%nat
      /\ count is_loop_exit (emitted first w1) = 1%nat).
Proof.
  intros R; apply shutdown_state_running in R; destruct R as [Himm G].
  pose proof (handle_signal_cb_first_sigint EV_SIGNAL w G) as H1.
  set (e1 := [EvCloseAllListeners;
              EvLogNotice "Got SIGINT. Preparing shutdown.";
              EvStartShutdown 0]) in *.
  assert (G1 : got_sigint (after_signal w 1 e1) <> 0) by (simpl; lia).
  pose proof (handle_signal_cb_later_sigint EV_SIGNAL _ G1) as H2.
  simpl got_sigint in H2.
  set (e2 := EvCloseAllListeners
             :: EvLogNotice "Got SIGINT for the second time. Terminating."
             :: immediate_events) in *.
  assert (D1 : deliver [SIGINT] w = Ret tt (after_signal w 1 e1))
    by (unfold deliver, bind, ret; rewrite H1; reflexivity).
  assert (D2 : deliver [SIGINT; SIGINT] w =
               Ret tt (after_signal w 1 (e1 ++ e2))).
  { unfold deliver, bind, ret; rewrite H1, H2.
    unfold after_signal; simpl; rewrite <- app_assoc; reflexivity. }
  cbv zeta.
  rewrite (emitted_after_signal _ _ _ _ _ D1),
    (emitted_after_signal _ _ _ _ _ D2),
    (emitted_after_signal _ _ _ _ _ H1), D1, D2.
  simpl world_of.
  rewrite (emitted_after_signal _ _ _ _ _ H2).
  repeat split; try reflexivity.
  - unfold shutdown_state; simpl.
    rewrite existsb_app, Himm; reflexivity.
  - apply shutdown_state_after_immediate; reflexivity.
Qed.

Lemma sigint_once_then_twice_witness :
  shutdown_state initial_world = Running
  /\ shutdown_state (world_of (deliver [SIGINT] initial_world)) = Draining
  /\ shutdown_state (world_of (deliver [SIGINT; SIGINT] initial_world))
     = Terminating.
Proof.
  split; [reflexivity|].
  pose proof (sigint_once_then_twice initial_world eq_refl) as H.
  cbv zeta in H.
  destruct H as [[_ [H1 _]] [_ [H2 _]]].
  split; [exact H1|exact H2].
Defined.

Lemma after_signal_twice w g1 e1 g2 e2 :
  after_signal (after_signal w g1 e1) g2 e2 = after_signal w g2 (e1 ++ e2).
Proof. unfold after_signal; simpl; rewrite app_assoc; reflexivity. Qed.

Lemma deliver_cons s sigs w g evs :
  handle_signal_cb s EV_SIGNAL w = Ret tt (after_signal w g evs) ->
  deliver (s :: sigs) w = deliver sigs (after_signal w g evs).
Proof. intros H; simpl; unfold bind; rewrite H; reflexivity. Qed.

Lemma count_app p t1 t2 : count p (t1 ++ t2) = (count p t1 + count p t2)%nat.
Proof. unfold count; rewrite filter_app, length_app; reflexivity. Qed.

Lemma no_graceful_after_immediate_app t1 t2 :
  no_graceful_after_immediate (t1 ++ t2) =
  no_graceful_after_immediate t1 && no_graceful_after_immediate t2
  && negb (existsb is_immediate t1 && existsb is_graceful t2).
Proof.
  induction t1 as [|e t1 IH]; simpl.
  - rewrite andb_true_r; reflexivity.
  - rewrite IH, existsb_app.
    destruct (is_immediate e), (existsb is_graceful t1),
      (existsb is_graceful t2), (existsb is_immediate t1),
      (no_graceful_after_immediate t1), (no_graceful_after_immediate t2);
      reflexivity.
Qed.

Lemma no_graceful_no_violation t :
  existsb is_graceful t = false -> no_graceful_after_immediate t = true.
Proof.
  induction t as [|e t IH]; simpl; [reflexivity|].
  intros H; apply orb_false_iff in H; destruct H as [_ H].
  rewrite H, (IH H); destruct (is_immediate e); reflexivity.
Qed.

Lemma sigterm_before_sigint_sigint sigs :
  sigterm_before_sigint sigs = true -> existsb is_sigint sigs = true.
Proof.
  induction sigs as [|s sigs IH]; simpl; [discriminate|].
  replace (is_sigint s) with (s =? SIGINT) by reflexivity.
  destruct (s =? SIGINT); [discriminate|].
  destruct (s =? SIGTERM); simpl; [tauto|exact IH].
Qed.

(** What a whole sequence of deliveries does to the trace and to
    [got_sigint]. *)
Lemma deliver_run sigs : forall w,
  exists g evs,
    deliver sigs w = Ret tt (after_signal w g evs)
    /\ got_sigint w <= g
    /\ (got_sigint w <> 0 -> g = got_sigint w)
    /\ existsb is_graceful evs
       = (got_sigint w =? 0) && existsb is_sigint sigs
    /\ count is_graceful evs
       = (if (got_sigint w =? 0) && existsb is_sigint sigs
          then 1%nat else 0%nat)
    /\ no_graceful_after_immediate evs
       = negb ((got_sigint w =? 0) && sigterm_before_sigint sigs).
Proof.
  induction sigs as [|s sigs IH]; intros w.
  - exists (got_sigint w), []; rewrite after_signal_id; simpl.
    rewrite !andb_false_r; repeat split; try reflexivity; lia.
  - destruct (Z.eq_dec s SIGINT) as [->|N1];
      [destruct (Z.eq_dec (got_sigint w) 0) as [G|G]
      |destruct (Z.eq_dec s SIGTERM) as [->|N2]].
    + pose proof (handle_signal_cb_first_sigint EV_SIGNAL w G) as H.
      destruct (IH (after_signal w 1 [EvCloseAllListeners;
                 EvLogNotice "Got SIGINT. Preparing shutdown.";
                 EvStartShutdown 0]))
        as (g & evs & D & Hle & Hg & He & Hc & Hn).
      simpl got_sigint in *. change (1 =? 0) with false in *.
      simpl andb in *.
      eexists g, (_ ++ evs)%list.
      rewrite (deliver_cons _ _ _ _ _ H), D, after_signal_twice, G.
      split; [reflexivity|]. split; [lia|]. split; [lia|].
      rewrite existsb_app, count_app, no_graceful_after_immediate_app,
        He, Hc, Hn.
      repeat split.
    + pose proof (handle_signal_cb_later_sigint EV_SIGNAL w G) as H.
      destruct (IH (after_signal w (got_sigint w)
                 (EvCloseAllListeners
                  :: EvLogNotice "Got SIGINT for the second time. Terminating."
                  :: immediate_events)))
        as (g & evs & D & Hle & Hg & He & Hc & Hn).
      simpl got_sigint in *.
      pose proof G as G'; apply Z.eqb_neq in G'; rewrite G' in *.
      simpl andb in *.
      eexists g, (_ ++ evs)%list.
      rewrite (deliver_cons _ _ _ _ _ H), D, after_signal_twice.
      split; [reflexivity|]. split; [exact Hle|]. split; [exact Hg|].
      rewrite existsb_app, count_app, no_graceful_after_immediate_app,
        He, Hc, Hn.
      repeat split.
    + pose proof (handle_signal_cb_sigterm EV_SIGNAL w) as H.
      destruct (IH (after_signal w (got_sigint w)
                 (EvLogNotice "Got SIGTERM. Terminating."
                  :: immediate_events)))
        as (g & evs & D & Hle & Hg & He & Hc & Hn).
      simpl got_sigint in *.
      eexists g, (_ ++ evs)%list.
      rewrite (deliver_cons _ _ _ _ _ H), D, after_signal_twice.
      split; [reflexivity|]. split; [exact Hle|]. split; [exact Hg|].
      rewrite existsb_app, count_app, no_graceful_after_immediate_app,
        He, Hc, Hn.
      change (existsb is_sigint (SIGTERM :: sigs))
        with (existsb is_sigint sigs).
      change (sigterm_before_sigint (SIGTERM :: sigs))
        with (existsb is_sigint sigs).
      split; [reflexivity|]. split; [reflexivity|].
      pose proof (sigterm_before_sigint_sigint sigs) as S.
      destruct (got_sigint w =? 0), (existsb is_sigint sigs),
        (sigterm_before_sigint sigs); try reflexivity.
      discriminate (S eq_refl).
    + pose proof (handle_signal_cb_other s EV_SIGNAL w N1 N2) as H.
      rewrite <- (after_signal_id w) in H at 2.
      destruct (IH w) as (g & evs & D & Hle & Hg & He & Hc & Hn).
      exists g, evs.
      rewrite (deliver_cons _ _ _ _ _ H), after_signal_id, D.
      assert (E1 : existsb is_sigint (s :: sigs) = existsb is_sigint sigs).
      { simpl; unfold is_sigint at 1.
        apply Z.eqb_neq in N1; rewrite N1; reflexivity. }
      assert (E2 : sigterm_before_sigint (s :: sigs)
                   = sigterm_before_sigint sigs).
      { simpl; apply Z.eqb_neq in N1, N2; rewrite N1, N2; reflexivity. }
      rewrite E1, E2; repeat split; assumption.
Qed.

Lemma phases_head sigs w :
  exists ps, phases sigs w = shutdown_state w :: ps.
Proof. destruct sigs; simpl; eexists; reflexivity. Qed.

Lemma handle_signal_cb_rank s w :
  (phase_rank (shutdown_state w)
   <= phase_rank (shutdown_state (world_of (handle_signal_cb s EV_SIGNAL w))))%nat.
Proof.
  destruct (handle_signal_cb_returns s EV_SIGNAL w) as (g & evs & H & Hg).
  rewrite H; simpl world_of.
  unfold shutdown_state; simpl; rewrite existsb_app.
  destruct (existsb is_immediate (output w)); simpl; [lia|].
  destruct (got_sigint w =? 0) eqn:G; simpl; [lia|].
  apply Z.eqb_neq in G.
  destruct Hg as [->|[G0 _]]; [|contradiction].
  apply Z.eqb_neq in G; rewrite G.
  destruct (existsb is_immediate evs); simpl; lia.
Qed.

Lemma phases_never_backward sigs : forall w, never_backward (phases sigs w).
Proof.
  induction sigs as [|s sigs IH]; intros w; simpl; [auto|].
  split; [|apply IH].
  destruct (phases_head sigs (world_of (handle_signal_cb s EV_SIGNAL w)))
    as [ps ->].
  apply handle_signal_cb_rank.
Qed.

(** C1, as stated, fails in state Running: the SIGTERM branch of the
    handler does not close the listeners. *)
Lemma sigterm_closes_listeners_counterexample :
  shutdown_state initial_world = Running
  /\ ~ (existsb is_close_listeners
          (emitted (handle_signal_cb SIGTERM EV_SIGNAL) initial_world) = true
        /\ existsb is_immediate
             (emitted (handle_signal_cb SIGTERM EV_SIGNAL) initial_world)
           = true
        /\ existsb is_loop_exit
             (emitted (handle_signal_cb SIGTERM EV_SIGNAL) initial_world)
           = true
        /\ shutdown_state
             (world_of (handle_signal_cb SIGTERM EV_SIGNAL initial_world))
           = Terminating).
Proof.
  split; [reflexivity|].
  intros [H _]; vm_compute in H; discriminate H.
Qed.

(** C1 (amended): on every delivery of SIGTERM, whatever the state, the
    handler returns after logging, requesting an immediate shutdown and
    so the exit of the event loop, each once; the next state is
    Terminating; [got_sigint] is left alone and the handler does not
    close the listeners in this branch. *)
Theorem sigterm_requests_immediate_shutdown (what : Z) (w : world) :
  let w' := world_of (handle_signal_cb SIGTERM what w) in
  handle_signal_cb SIGTERM what w = Ret tt w'
  /\ emitted (handle_signal_cb SIGTERM what) w
     = [EvLogNotice "Got SIGTERM. Terminating."; EvStartShutdown 1;
        EvLogDebug "Finishing shutdown."; EvLoopExit]
  /\ count is_immediate (emitted (handle_signal_cb SIGTERM what) w) = 1%nat
  /\ count is_loop_exit (emitted (handle_signal_cb SIGTERM what) w) = 1%nat
  /\ count is_close_listeners (emitted (handle_signal_cb SIGTERM what) w)
     = 0%nat
  /\ got_sigint w' = got_sigint w
  /\ shutdown_state w' = Terminating.
Proof.
  pose proof (handle_signal_cb_sigterm what w) as H.
  cbv zeta; rewrite (emitted_after_signal _ _ _ _ _ H), H; simpl world_of.
  repeat split; try reflexivity.
  apply shutdown_state_after_immediate; reflexivity.
Qed.

(** C2, as stated, fails: after a SIGTERM the state is Terminating, and
    a SIGINT delivered then still closes the listeners and issues a
    shutdown request. *)
Lemma signal_after_terminating_counterexample :
  let w1 := world_of (handle_signal_cb SIGTERM EV_SIGNAL initial_world) in
  shutdown_state w1 = Terminating
  /\ ~ (count is_close_listeners
          (emitted (handle_signal_cb SIGINT EV_SIGNAL) w1) = 0%nat
        /\ count is_graceful
             (emitted (handle_signal_cb SIGINT EV_SIGNAL) w1) = 0%nat
        /\ count is_immediate
             (emitted (handle_signal_cb SIGINT EV_SIGNAL) w1) = 0%nat
        /\ count is_loop_exit
             (emitted (handle_signal_cb SIGINT EV_SIGNAL) w1) = 0%nat
        /\ shutdown_state
             (world_of (handle_signal_cb SIGINT EV_SIGNAL w1)) = Terminating).
Proof.
  cbv zeta; split; [reflexivity|].
  intros [H _]; vm_compute in H; discriminate H.
Qed.

(** C2 (amended): once the state is Terminating it stays Terminating
    under every further sequence of signals, and every delivery
    returns; but the signals still act.  A SIGTERM requests an
    immediate shutdown and the loop exit again; a SIGINT closes the
    listeners again and requests a shutdown, graceful if no SIGINT had
    been counted and immediate otherwise; any other signal number does
    nothing. *)
Theorem terminating_is_absorbing (w : world) (sigs : list Z) :
  shutdown_state w = Terminating ->
  (exists w', deliver sigs w = Ret tt w'
              /\ shutdown_state w' = Terminating)
  /\ emitted (handle_signal_cb SIGTERM EV_SIGNAL) w
     = EvLogNotice "Got SIGTERM. Terminating." :: immediate_events
  /\ emitted (handle_signal_cb SIGINT EV_SIGNAL) w
     = EvCloseAllListeners
       :: (if got_sigint w =? 0
           then [EvLogNotice "Got SIGINT. Preparing shutdown.";
                 EvStartShutdown 0]
           else EvLogNotice "Got SIGINT for the second time. Terminating."
                :: immediate_events)
  /\ (forall s, s <> SIGINT -> s <> SIGTERM ->
                handle_signal_cb s EV_SIGNAL w = Ret tt w).
Proof.
  intros T; apply shutdown_state_terminating in T.
  split; [|split; [|split]].
  - destruct (deliver_run sigs w) as (g & evs & D & _).
    eexists; split; [exact D|].
    apply shutdown_state_terminating; simpl.
    rewrite existsb_app, T; reflexivity.
  - apply (emitted_after_signal _ _ _ _ _ (handle_signal_cb_sigterm _ w)).
  - destruct (Z.eq_dec (got_sigint w) 0) as [G|G].
    + rewrite (emitted_after_signal _ _ _ _ _
                 (handle_signal_cb_first_sigint _ w G)), G; reflexivity.
    + rewrite (emitted_after_signal _ _ _ _ _
                 (handle_signal_cb_later_sigint _ w G)).
      apply Z.eqb_neq in G; rewrite G; reflexivity.
  - intros s N1 N2; apply handle_signal_cb_other; assumption.
Qed.

Lemma terminating_is_absorbing_witness :
  shutdown_state (world_of (deliver [SIGTERM] initial_world)) = Terminating
  /\ exists w',
       deliver [SIGINT; SIGTERM; SIGINT]
         (world_of (deliver [SIGTERM] initial_world)) = Ret tt w'
       /\ shutdown_state w' = Terminating.
Proof.
  split; [reflexivity|].
  exact (proj1 (terminating_is_absorbing
                  (world_of (deliver [SIGTERM] initial_world))
                  [SIGINT; SIGTERM; SIGINT] eq_refl)).
Defined.

(** C3, as stated, fails on SIGTERM followed by SIGINT: the phases do
    not move backward, but the SIGINT issues a graceful shutdown request
    after the immediate one of the SIGTERM. *)
Lemma graceful_after_immediate_counterexample :
  ~ (never_backward (phases [SIGTERM; SIGINT] initial_world)
     /\ no_graceful_after_immediate
          (output (world_of (deliver [SIGTERM; SIGINT] initial_world)))
        = true).
Proof. intros [_ H]; vm_compute in H; discriminate H. Qed.

(** C3 (amended): for every sequence of signals the phase never moves
    backward and [got_sigint] never decreases; from process start at
    most one graceful request is issued, and it follows an immediate
    request exactly when a SIGTERM is delivered before the first SIGINT;
    once a SIGINT has been counted no graceful request is issued any
    more. *)
Theorem shutdown_never_backward (sigs : list Z) :
  (forall w, never_backward (phases sigs w))
  /\ (forall w, got_sigint w <= got_sigint (world_of (deliver sigs w)))
  /\ (count is_graceful (output (world_of (deliver sigs initial_world)))
      <= 1)%nat
  /\ no_graceful_after_immediate
       (output (world_of (deliver sigs initial_world)))
     = negb (sigterm_before_sigint sigs)
  /\ (forall w, got_sigint w <> 0 ->
                count is_graceful (emitted (deliver sigs) w) = 0%nat).
Proof.
  split; [apply phases_never_backward|].
  split; [|split; [|split]].
  - intros w; destruct (deliver_run sigs w) as (g & evs & D & Hle & _).
    rewrite D; exact Hle.
  - destruct (deliver_run sigs initial_world)
      as (g & evs & D & _ & _ & _ & Hc & _).
    rewrite D; simpl; rewrite Hc.
    destruct (existsb is_sigint sigs); simpl; lia.
  - destruct (deliver_run sigs initial_world)
      as (g & evs & D & _ & _ & _ & _ & Hn).
    rewrite D; simpl; exact Hn.
  - intros w G; destruct (deliver_run sigs w)
      as (g & evs & D & _ & _ & _ & Hc & _).
    rewrite (emitted_after_signal _ _ _ _ _ D), Hc.
    apply Z.eqb_neq in G; rewrite G; reflexivity.
Qed.

Lemma shutdown_never_backward_witness :
  got_sigint (world_of (deliver [SIGINT] initial_world)) <> 0
  /\ count is_graceful
       (emitted (deliver [SIGINT; SIGTERM; SIGINT])
          (world_of (deliver [SIGINT] initial_world))) = 0%nat.
Proof.
  assert (G : got_sigint (world_of (deliver [SIGINT] initial_world)) <> 0)
    by (vm_compute; discriminate).
  split; [exact G|].
  exact (proj2 (proj2 (proj2 (proj2
           (shutdown_never_backward [SIGINT; SIGTERM; SIGINT])))) _ G).
Defined.

(** ** Command line *)

(** *** The tests of [handle_option] *)

Lemma is_log_file_opt_iff a :
  is_log_file_opt a = true <-> exists r, a = ("--log-file=" ++ r)%string.
Proof.
  unfold is_log_file_opt; rewrite Z.eqb_eq.
  apply (strncmp_prefix "--log-file=").
Qed.

Lemma is_min_severity_opt_iff a :
  is_min_severity_opt a = true
  <-> exists r, a = ("--log-min-severity=" ++ r)%string.
Proof.
  unfold is_min_severity_opt; rewrite Z.eqb_eq.
  apply (strncmp_prefix "--log-min-severity=").
Qed.

Lemma is_no_log_opt_iff a : is_no_log_opt a = true <-> a = "--no-log".
Proof.
  unfold is_no_log_opt; rewrite Z.eqb_eq.
  apply (strncmp_exact "--no-log").
Qed.

Lemma is_no_safe_logging_opt_iff a :
  is_no_safe_logging_opt a = true <-> a = "--no-safe-logging".
Proof.
  unfold is_no_safe_logging_opt; rewrite Z.eqb_eq.
  apply (strncmp_exact "--no-safe-logging").
Qed.

Lemma is_managed_opt_iff a : is_managed_opt a = true <-> a = "--managed".
Proof.
  unfold is_managed_opt; rewrite Z.eqb_eq.
  apply (strncmp_exact "--managed").
Qed.

Lemma option_kind_total a : option_kind a.
Proof.
  destruct (is_log_file_opt a) eqn:E1.
  { apply is_log_file_opt_iff in E1; destruct E1 as [r ->].
    apply KLogFile; reflexivity. }
  destruct (is_min_severity_opt a) eqn:E2.
  { apply is_min_severity_opt_iff in E2; destruct E2 as [r ->].
    apply KMinSeverity; reflexivity. }
  destruct (is_no_log_opt a) eqn:E3.
  { apply is_no_log_opt_iff in E3; subst a. apply KNoLog; reflexivity. }
  destruct (is_no_safe_logging_opt a) eqn:E4.
  { apply is_no_safe_logging_opt_iff in E4; subst a.
    apply KNoSafeLogging; reflexivity. }
  destruct (is_managed_opt a) eqn:E5.
  { apply is_managed_opt_iff in E5; subst a. apply KManaged; reflexivity. }
  apply KOther; assumption.
Qed.

Section MainProperties.

Variable C : collaborators.

(** *** One option *)

(** [handle_option] with its effects written out. *)
Lemma handle_option_eq a l w :
  handle_option C a l w =
  if is_log_file_opt a then
    if negb (logfile_set l =? 0) then
      Exit 1 (world_of (emit (EvLogError "You've already set a log file!") w))
    else if log_set_method_rc C LOG_METHOD_FILE (Some (str_offset 11 a)) <? 0
    then Exit 1 (world_of (emit (EvLogError "Failed creating logfile.") w))
    else Ret {| logfile_set := 1; logsev_set := logsev_set l; i := i l |}
             (world_of (set_log_dest (File (str_offset 11 a)) w))
  else if is_min_severity_opt a then
    if negb (logsev_set l =? 0) then
      Exit 1 (world_of
                (emit (EvLogError "You've already set a min. log severity!") w))
    else if log_set_min_severity_rc C (str_offset 19 a) <? 0
    then Exit 1 (world_of
                   (emit (EvLogError "Error at setting logging severity") w))
    else Ret {| logfile_set := logfile_set l; logsev_set := 1; i := i l |}
             (world_of (set_log_min_sev (str_offset 19 a) w))
  else if is_no_log_opt a then
    if negb (logsev_set l =? 0) then
      Exit 1 (world_of
                (emit (EvPrintf ("You've already set a min. log severity!"
                                 ++ nl)) w))
    else if log_set_method_rc C LOG_METHOD_NULL None <? 0
    then Exit 1 (world_of
                   (emit (EvPrintf ("Error at setting logging severity."
                                    ++ nl)) w))
    else Ret {| logfile_set := logfile_set l; logsev_set := 1; i := i l |}
             (world_of (set_log_dest NullSink w))
  else if is_no_safe_logging_opt a then
    Ret l (world_of (set_safe_logging 0 w))
  else if is_managed_opt a then
    Ret l (world_of (set_is_external_proxy 0 w))
  else
    Exit 1 (world_of
              (emit (EvLogError ("Unrecognizable obfsproxy argument '"
                                 ++ a ++ "'")) w)).
Proof.
  unfold handle_option, is_log_file_opt, is_min_severity_opt,
    is_no_log_opt, is_no_safe_logging_opt, is_managed_opt.
  destruct (strncmp a "--log-file=" 11 =? 0).
  { generalize (str_offset 11 a); intros p.
    unfold bind, log_set_method, log_error, bind, exit, ret; cbv zeta.
    destruct (negb (logfile_set l =? 0)); [reflexivity|].
    destruct (log_set_method_rc C LOG_METHOD_FILE _ <? 0) eqn:E;
      simpl; rewrite ?E; reflexivity. }
  destruct (strncmp a "--log-min-severity=" 19 =? 0).
  { generalize (str_offset 19 a); intros p.
    unfold bind, log_set_min_severity, log_error, bind, exit, ret; cbv zeta.
    destruct (negb (logsev_set l =? 0)); [reflexivity|].
    destruct (log_set_min_severity_rc C _ <? 0) eqn:E;
      simpl; rewrite ?E; reflexivity. }
  destruct (strncmp a "--no-log" 9 =? 0).
  { unfold bind, log_set_method, printf, bind, exit, ret; cbv zeta.
    destruct (negb (logsev_set l =? 0)); [reflexivity|].
    destruct (log_set_method_rc C LOG_METHOD_NULL None <? 0) eqn:E;
      simpl; rewrite ?E; reflexivity. }
  destruct (strncmp a "--no-safe-logging" 18 =? 0); [reflexivity|].
  destruct (strncmp a "--managed" 10 =? 0); reflexivity.
Qed.

Lemma handle_option_ret a l w l' w' :
  handle_option C a l w = Ret l' w' ->
  is_option a = true
  /\ output w' = output w
  /\ i l' = i l
  /\ logfile_set l' = (if is_log_file_opt a then 1 else logfile_set l)
  /\ logsev_set l' = (if is_severity_setting a then 1 else logsev_set l)
  /\ is_external_proxy w'
     = (if is_managed_opt a then 0 else is_external_proxy w)
  /\ log_dest w'
     = (if is_log_file_opt a then File (str_offset 11 a)
        else if is_no_log_opt a then NullSink else log_dest w).
Proof.
  rewrite handle_option_eq; unfold is_severity_setting.
  destruct (option_kind_total a) as [H1 H2 H3 H4 H5 H6|H1 H2 H3 H4 H5 H6
    |H1 H2 H3 H4 H5 H6|H1 H2 H3 H4 H5 H6|H1 H2 H3 H4 H5 H6|H1 H2 H3 H4 H5];
    rewrite ?H1, ?H2, ?H3, ?H4, ?H5; simpl orb; cbv iota.
  - destruct (negb (logfile_set l =? 0)); [discriminate|].
    destruct (_ <? 0); [discriminate|].
    intros [= <- <-]; repeat split; assumption.
  - destruct (negb (logsev_set l =? 0)); [discriminate|].
    destruct (_ <? 0); [discriminate|].
    intros [= <- <-]; repeat split; assumption.
  - destruct (negb (logsev_set l =? 0)); [discriminate|].
    destruct (_ <? 0); [discriminate|].
    intros [= <- <-]; repeat split; assumption.
  - intros [= <- <-]; repeat split; assumption.
  - intros [= <- <-]; repeat split; assumption.
  - discriminate.
Qed.

Lemma handle_option_exit a l w c w' :
  handle_option C a l w = Exit c w' ->
  c = 1 /\ exists e, output w' = (output w ++ [e])%list /\ is_launch e = false.
Proof.
  rewrite handle_option_eq.
  repeat match goal with
         | |- context [if ?b then _ else _] => destruct b
         end;
    intros [= <- <-]; (split; [reflexivity|]); eexists;
    (split; [reflexivity|reflexivity]).
Qed.

(** A second log file, or a second severity setting, is refused with
    the diagnostic of a configuration conflict. *)
Lemma handle_option_conflict a l w :
  (is_log_file_opt a = true /\ logfile_set l <> 0)
  \/ (is_severity_setting a = true /\ logsev_set l <> 0) ->
  exists e, handle_option C a l w = Exit 1 (world_of (emit e w))
            /\ is_config_conflict e = true.
Proof.
  rewrite handle_option_eq; unfold is_severity_setting.
  destruct (option_kind_total a) as [H1 H2 H3 H4 H5 H6|H1 H2 H3 H4 H5 H6
    |H1 H2 H3 H4 H5 H6|H1 H2 H3 H4 H5 H6|H1 H2 H3 H4 H5 H6|H1 H2 H3 H4 H5];
    rewrite ?H1, ?H2, ?H3, ?H4, ?H5; simpl orb; cbv iota;
    (intros [[F N]|[F N]]; try discriminate F);
    apply Z.eqb_neq in N; rewrite N; simpl negb; cbv iota;
    eexists; (split; [reflexivity|reflexivity]).
Qed.

(** *** The scanning loop *)

Lemma scan_args_cons a args l w :
  scan_args C (a :: args) l w =
  if is_option a then
    match handle_option C a l w with
    | Ret l' w' =>
        scan_args C args
          {| logfile_set := logfile_set l';
             logsev_set := logsev_set l';
             i := i l' + 1 |} w'
    | Exit c w' => Exit c w'
    end
  else Ret l w.
Proof.
  change (scan_args C (a :: args) l w)
    with ((if strncmp a "--" 2 =? 0 then
             l' <- handle_option C a l ;;
             scan_args C args
               {| logfile_set := logfile_set l';
                  logsev_set := logsev_set l';
                  i := i l' + 1 |}
           else ret l) w).
  unfold is_option; destruct (strncmp a "--" 2 =? 0); reflexivity.
Qed.

Lemma scan_args_ret args : forall l w l' w',
  scan_args C args l w = Ret l' w' ->
  output w' = output w
  /\ i l' = i l + Z.of_nat (List.length (option_prefix args))
  /\ logfile_set l'
     = (if existsb is_log_file_opt (option_prefix args)
        then 1 else logfile_set l)
  /\ logsev_set l'
     = (if existsb is_severity_setting (option_prefix args)
        then 1 else logsev_set l)
  /\ is_external_proxy w'
     = (if existsb is_managed_opt (option_prefix args)
        then 0 else is_external_proxy w)
  /\ (existsb is_log_file_opt (option_prefix args) = false ->
      existsb is_no_log_opt (option_prefix args) = false ->
      log_dest w' = log_dest w).
Proof.
  induction args as [|a args IH]; intros l w l' w'.
  - simpl; intros [= <- <-]; repeat split; lia.
  - rewrite scan_args_cons; simpl option_prefix.
    destruct (is_option a) eqn:O;
      [|simpl; intros [= <- <-]; repeat split; lia].
    destruct (handle_option C a l w) as [l1 w1|c w1] eqn:H;
      [|discriminate].
    apply handle_option_ret in H.
    destruct H as (_ & Ho & Hi & Hf & Hs & He & Hd).
    intros S; apply IH in S; simpl in S.
    destruct S as (So & Si & Sf & Ss & Se & Sd).
    rewrite So, Si, Sf, Ss, Se, Ho, Hi, Hf, Hs, He.
    simpl existsb; simpl List.length.
    split; [reflexivity|]. split; [lia|].
    split; [destruct (is_log_file_opt a),
              (existsb is_log_file_opt (option_prefix args)); reflexivity|].
    split; [destruct (is_severity_setting a),
              (existsb is_severity_setting (option_prefix args));
            reflexivity|].
    split; [destruct (is_managed_opt a),
              (existsb is_managed_opt (option_prefix args)); reflexivity|].
    intros F N; apply orb_false_iff in F, N.
    destruct F as [F1 F2], N as [N1 N2].
    rewrite (Sd F2 N2), Hd, F1, N1; reflexivity.
Qed.

Lemma scan_args_exit args : forall l w c w',
  scan_args C args l w = Exit c w' ->
  c = 1 /\ exists e, output w' = (output w ++ [e])%list /\ is_launch e = false.
Proof.
  induction args as [|a args IH]; intros l w c w'; [discriminate|].
  rewrite scan_args_cons.
  destruct (is_option a); [|discriminate].
  destruct (handle_option C a l w) as [l1 w1|c1 w1] eqn:H.
  - apply handle_option_ret in H; destruct H as (_ & Ho & _).
    intros S; apply IH in S; rewrite Ho in S; exact S.
  - intros [= <- <-]; exact (handle_option_exit _ _ _ _ _ H).
Qed.

(** Scanning a run of options and then the rest is scanning the whole
    list. *)
Lemma scan_args_app pre rest : forall l w,
  Forall (fun a => is_option a = true) pre ->
  scan_args C (pre ++ rest) l w =
  match scan_args C pre l w with
  | Ret l' w' => scan_args C rest l' w'
  | Exit c w' => Exit c w'
  end.
Proof.
  induction pre as [|a pre IH]; intros l w F; [reflexivity|].
  inversion F as [|? ? Ha Hpre]; subst.
  change ((a :: pre) ++ rest)%list with (a :: (pre ++ rest))%list.
  rewrite !scan_args_cons, Ha.
  destruct (handle_option C a l w) as [l1 w1|c1 w1]; [|reflexivity].
  apply IH; exact Hpre.
Qed.

Lemma option_prefix_all pre :
  Forall (fun a => is_option a = true) pre -> option_prefix pre = pre.
Proof.
  induction 1 as [|a pre Ha _ IH]; simpl; [reflexivity|].
  rewrite Ha, IH; reflexivity.
Qed.

(** *** [handle_obfsproxy_args] and [obfs_main] *)

Lemma handle_obfsproxy_args_eq argv0 args w :
  handle_obfsproxy_args C (argv0 :: args) w =
  match scan_args C args locals0 w with
  | Exit c w' => Exit c w'
  | Ret l w' =>
      if (is_external_proxy w' =? 0) && (logfile_set l =? 0)
         && negb (logsev_set l =? 0)
      then Exit 1 (world_of (emit (EvPrintf managed_conflict_msg) w'))
      else if (is_external_proxy w' =? 0) && (logfile_set l =? 0)
      then
        if log_set_method_rc C LOG_METHOD_NULL None <? 0
        then Exit 1 (world_of
                       (emit (EvPrintf ("Error at setting logging severity."
                                        ++ nl)) w'))
        else Ret (i l) (world_of (set_log_dest NullSink w'))
      else Ret (i l) w'
  end.
Proof.
  unfold handle_obfsproxy_args, bind at 1; simpl skipn; fold locals0.
  destruct (scan_args C args locals0 w) as [l w'|c w']; [|reflexivity].
  unfold bind, read, printf, log_set_method, exit, ret; cbv zeta.
  destruct ((is_external_proxy w' =? 0) && (logfile_set l =? 0)
            && negb (logsev_set l =? 0)); [reflexivity|].
  destruct ((is_external_proxy w' =? 0) && (logfile_set l =? 0));
    [|reflexivity].
  destruct (log_set_method_rc C LOG_METHOD_NULL None <? 0) eqn:E;
    simpl; rewrite ?E; reflexivity.
Qed.

Lemma run_obfsproxy_eq argv :
  run_obfsproxy C argv =
  match handle_obfsproxy_args C argv initial_world with
  | Exit c w => Exit c w
  | Ret skip w =>
      let begin := skipn (Z.to_nat skip) argv in
      let w1 := world_of (emit (EvLogNotice "Starting.") w) in
      if negb (is_external_proxy w =? 0) then
        Ret (if launch_external_proxy_rc C begin <? 0 then 1 else 0)
            (world_of (emit (EvLaunchExternal begin) w1))
      else
        Ret (if launch_managed_proxy_rc C <? 0 then 1 else 0)
            (world_of (emit EvLaunchManaged w1))
  end.
Proof.
  unfold run_obfsproxy, obfs_main, bind at 1.
  destruct (handle_obfsproxy_args C argv initial_world) as [skip w|c w];
    [|reflexivity].
  unfold bind, read, log_notice, launch_external_proxy,
    launch_managed_proxy, bind, ret; cbv zeta; simpl.
  destruct (negb (is_external_proxy w =? 0)).
  - destruct (launch_external_proxy_rc C _ <? 0); reflexivity.
  - destruct (launch_managed_proxy_rc C <? 0); reflexivity.
Qed.

(** A fatal error while the options are handled ends the process with
    code 1 before either launcher is called. *)
Lemma run_obfsproxy_exit argv0 args c w :
  handle_obfsproxy_args C (argv0 :: args) initial_world = Exit c w ->
  run_obfsproxy C (argv0 :: args) = Exit c w.
Proof. intros H; rewrite run_obfsproxy_eq, H; reflexivity. Qed.

Lemma option_prefix_remainder args :
  args = (option_prefix args ++ remainder args)%list
  /\ Forall (fun a => is_option a = true) (option_prefix args)
  /\ match remainder args with
     | [] => True
     | a :: _ => is_option a = false
     end
  /\ skipn (List.length (option_prefix args)) args = remainder args.
Proof.
  induction args as [|a args (IH1 & IH2 & IH3 & IH4)]; simpl.
  - repeat split; constructor.
  - destruct (is_option a) eqn:O; simpl.
    + repeat split; [f_equal; exact IH1|constructor; assumption
                    |exact IH3|exact IH4].
    + rewrite O; repeat split; constructor.
Qed.

(** When the scan reaches a second log file or a second severity
    setting, the process ends there with the diagnostic of a
    configuration conflict. *)
Lemma second_option_conflict argv0 pre a rest l w :
  Forall (fun x => is_option x = true) pre ->
  (existsb is_log_file_opt pre = true /\ is_log_file_opt a = true)
  \/ (existsb is_severity_setting pre = true
      /\ is_severity_setting a = true) ->
  scan_args C pre locals0 initial_world = Ret l w ->
  exists e w',
    run_obfsproxy C (argv0 :: pre ++ a :: rest) = Exit 1 w'
    /\ output w' = [e]
    /\ is_config_conflict e = true.
Proof.
  intros F D S.
  assert (Oa : is_option a = true).
  { unfold is_severity_setting in D.
    destruct (option_kind_total a) as [H1 H2 H3 H4 H5 H6|H1 H2 H3 H4 H5 H6
      |H1 H2 H3 H4 H5 H6|H1 H2 H3 H4 H5 H6|H1 H2 H3 H4 H5 H6|H1 H2 H3 H4 H5];
      try assumption.
    rewrite H1, H2, H3 in D; destruct D as [[_ D]|[_ D]]; discriminate D. }
  pose proof (scan_args_ret _ _ _ _ _ S) as (So & _ & Sf & Ss & _).
  rewrite (option_prefix_all _ F) in Sf, Ss.
  destruct (handle_option_conflict a l w) as (e & He & Hc).
  { destruct D as [[D1 D2]|[D1 D2]]; [left|right]; split; try assumption.
    - rewrite Sf, D1; discriminate.
    - rewrite Ss, D1; discriminate. }
  exists e, (world_of (emit e w)).
  split; [|split; [simpl; rewrite So; reflexivity|exact Hc]].
  apply run_obfsproxy_exit.
  rewrite handle_obfsproxy_args_eq, (scan_args_app _ _ _ _ F), S,
    scan_args_cons, Oa, He; reflexivity.
Qed.

(** C5: when the leading run of options holds a second [--log-file=],
    or a second severity-setting option ([--log-min-severity=] or
    [--no-log], in any combination), the process ends with code 1 and
    neither launcher has been called; and when the scan gets as far as
    that second option, the diagnostic is the one of a configuration
    conflict. *)
Theorem duplicate_log_option_is_conflict
        (argv0 : string) (pre : list string) (a : string)
        (rest : list string) :
  Forall (fun x => is_option x = true) pre ->
  (existsb is_log_file_opt pre = true /\ is_log_file_opt a = true)
  \/ (existsb is_severity_setting pre = true
      /\ is_severity_setting a = true) ->
  (exists w', run_obfsproxy C (argv0 :: pre ++ a :: rest) = Exit 1 w'
              /\ existsb is_launch (output w') = false)
  /\ (forall l w,
         scan_args C pre locals0 initial_world = Ret l w ->
         exists e w',
           run_obfsproxy C (argv0 :: pre ++ a :: rest) = Exit 1 w'
           /\ output w' = [e]
           /\ is_config_conflict e = true).
Proof.
  intros F D.
  assert (R : forall l w,
             scan_args C pre locals0 initial_world = Ret l w ->
             exists e w',
               run_obfsproxy C (argv0 :: pre ++ a :: rest) = Exit 1 w'
               /\ output w' = [e]
               /\ is_config_conflict e = true)
    by (intros l w; apply second_option_conflict; assumption).
  split; [|exact R].
  destruct (scan_args C pre locals0 initial_world) as [l w|c w] eqn:S.
  - destruct (R l w eq_refl) as (e & w' & Hr & Ho & Hc).
    exists w'; split; [exact Hr|].
    rewrite Ho; simpl; rewrite orb_false_r.
    destruct e; try reflexivity; discriminate Hc.
  - pose proof (scan_args_exit _ _ _ _ _ S) as (-> & e & Ho & Hl).
    exists w; split.
    + apply run_obfsproxy_exit.
      rewrite handle_obfsproxy_args_eq, (scan_args_app _ _ _ _ F), S;
        reflexivity.
    + rewrite Ho; simpl; rewrite Hl; reflexivity.
Qed.

End MainProperties.

Lemma duplicate_log_option_is_conflict_witness :
  (exists e w',
      run_obfsproxy all_succeed
        ["obfsproxy"; "--log-file=/tmp/a"; "--log-file=/tmp/b"; "obfs2"]
      = Exit 1 w'
      /\ output w' = [e]
      /\ is_config_conflict e = true)
  /\ (exists w',
        run_obfsproxy all_succeed
          ["obfsproxy"; "--no-log"; "--log-min-severity=debug"] = Exit 1 w'
        /\ existsb is_launch (output w') = false).
Proof.
  split.
  - refine (proj2 (duplicate_log_option_is_conflict all_succeed "obfsproxy"
                     ["--log-file=/tmp/a"] "--log-file=/tmp/b" ["obfs2"]
                     _ _) _ _ eq_refl).
    + repeat constructor.
    + left; split; reflexivity.
  - refine (proj1 (duplicate_log_option_is_conflict all_succeed "obfsproxy"
                     ["--no-log"] "--log-min-severity=debug" [] _ _)).
    + repeat constructor.
    + right; split; reflexivity.
Defined.

Section ModeAndPolicy.

Variable C : collaborators.

(** C6: when the options have been consumed, [--managed] is among
    them, no [--log-file=] is, and a severity-setting option is, the
    process reports that managed mode can only log to a file, a
    configuration conflict, and ends with code 1 before either
    launcher is called. *)
Theorem managed_with_severity_is_conflict
        (argv0 : string) (args : list string) (l : locals) (w : world) :
  scan_args C args locals0 initial_world = Ret l w ->
  existsb is_managed_opt (option_prefix args) = true ->
  existsb is_log_file_opt (option_prefix args) = false ->
  existsb is_severity_setting (option_prefix args) = true ->
  exists w',
    run_obfsproxy C (argv0 :: args) = Exit 1 w'
    /\ exit_code (run_obfsproxy C (argv0 :: args)) = 1
    /\ output w' = [EvPrintf managed_conflict_msg]
    /\ is_config_conflict (EvPrintf managed_conflict_msg) = true
    /\ existsb is_launch (output w') = false.
Proof.
  intros S Hm Hf Hs.
  pose proof (scan_args_ret _ _ _ _ _ _ S) as (So & _ & Sf & Ss & Se & _).
  rewrite Hm in Se; rewrite Hf in Sf; rewrite Hs in Ss.
  assert (R : run_obfsproxy C (argv0 :: args) =
              Exit 1 (world_of (emit (EvPrintf managed_conflict_msg) w))).
  { apply run_obfsproxy_exit.
    rewrite handle_obfsproxy_args_eq, S, Se, Sf, Ss; reflexivity. }
  eexists; split; [exact R|]; rewrite R.
  split; [reflexivity|].
  simpl output; rewrite So.
  repeat split.
Qed.

(** C7: when the options have been consumed, [--managed] is among
    them and neither [--log-file=] nor a severity-setting option is,
    then, provided the logging module accepts the null method, the
    options are handled without any diagnostic, logging goes to the
    null sink, the mode is Managed, and the managed launcher is the
    one called; this holds in particular for [--managed] alone. *)
Theorem managed_without_log_options_is_silent (argv0 : string) :
  0 <= log_set_method_rc C LOG_METHOD_NULL None ->
  (forall args l w,
      scan_args C args locals0 initial_world = Ret l w ->
      existsb is_managed_opt (option_prefix args) = true ->
      existsb is_log_file_opt (option_prefix args) = false ->
      existsb is_severity_setting (option_prefix args) = false ->
      exists w' rc w'',
        handle_obfsproxy_args C (argv0 :: args) initial_world
        = Ret (1 + Z.of_nat (List.length (option_prefix args))) w'
        /\ log_dest w' = NullSink
        /\ proxy_mode w' (remainder args) = Managed
        /\ output w' = []
        /\ run_obfsproxy C (argv0 :: args) = Ret rc w''
        /\ log_dest w'' = NullSink
        /\ output w'' = [EvLogNotice "Starting."; EvLaunchManaged])
  /\ (exists w',
        handle_obfsproxy_args C [argv0; "--managed"] initial_world
        = Ret 2 w'
        /\ log_dest w' = NullSink
        /\ proxy_mode w' [] = Managed).
Proof.
  intros N; apply Z.ltb_ge in N.
  assert (G : forall args l w,
      scan_args C args locals0 initial_world = Ret l w ->
      existsb is_managed_opt (option_prefix args) = true ->
      existsb is_log_file_opt (option_prefix args) = false ->
      existsb is_severity_setting (option_prefix args) = false ->
      exists w' rc w'',
        handle_obfsproxy_args C (argv0 :: args) initial_world
        = Ret (1 + Z.of_nat (List.length (option_prefix args))) w'
        /\ log_dest w' = NullSink
        /\ proxy_mode w' (remainder args) = Managed
        /\ output w' = []
        /\ run_obfsproxy C (argv0 :: args) = Ret rc w''
        /\ log_dest w'' = NullSink
        /\ output w'' = [EvLogNotice "Starting."; EvLaunchManaged]).
  { intros args l w S Hm Hf Hs.
    pose proof (scan_args_ret _ _ _ _ _ _ S) as (So & Si & Sf & Ss & Se & _).
    rewrite Hm in Se; rewrite Hf in Sf; rewrite Hs in Ss.
    assert (H : handle_obfsproxy_args C (argv0 :: args) initial_world
                = Ret (1 + Z.of_nat (List.length (option_prefix args)))
                      (world_of (set_log_dest NullSink w))).
    { rewrite handle_obfsproxy_args_eq, S, Se, Sf, Ss, N, Si;
        reflexivity. }
    eexists _, _, _.
    split; [exact H|].
    split; [reflexivity|].
    split; [unfold proxy_mode; simpl; rewrite Se; reflexivity|].
    split; [simpl; exact So|].
    rewrite run_obfsproxy_eq, H; cbv zeta.
    simpl is_external_proxy; rewrite Se; simpl negb; cbv iota.
    split; [reflexivity|].
    split; [reflexivity|].
    simpl; rewrite So; reflexivity. }
  split; [exact G|].
  edestruct (G ["--managed"]) as (w' & _ & _ & H & Hd & Hp & _);
    [reflexivity|reflexivity|reflexivity|reflexivity|].
  exists w'; repeat split; assumption.
Qed.

End ModeAndPolicy.

Lemma managed_with_severity_is_conflict_witness :
  exists w',
    run_obfsproxy all_succeed
      ["obfsproxy"; "--log-min-severity=debug"; "--managed"] = Exit 1 w'
    /\ output w' = [EvPrintf managed_conflict_msg].
Proof.
  destruct (managed_with_severity_is_conflict all_succeed "obfsproxy"
              ["--log-min-severity=debug"; "--managed"] _ _
              eq_refl eq_refl eq_refl eq_refl)
    as (w' & H & _ & Ho & _).
  exists w'; split; assumption.
Defined.

Lemma managed_without_log_options_is_silent_witness :
  0 <= log_set_method_rc all_succeed LOG_METHOD_NULL None
  /\ (exists w',
        handle_obfsproxy_args all_succeed ["obfsproxy"; "--managed"]
          initial_world = Ret 2 w'
        /\ log_dest w' = NullSink
        /\ proxy_mode w' [] = Managed)
  /\ (exists w' rc w'',
        handle_obfsproxy_args all_succeed
          ["obfsproxy"; "--no-safe-logging"; "--managed"; "obfs2"]
          initial_world = Ret 3 w'
        /\ log_dest w' = NullSink
        /\ proxy_mode w' ["obfs2"] = Managed
        /\ output w' = []
        /\ run_obfsproxy all_succeed
             ["obfsproxy"; "--no-safe-logging"; "--managed"; "obfs2"]
           = Ret rc w''
        /\ log_dest w'' = NullSink
        /\ output w'' = [EvLogNotice "Starting."; EvLaunchManaged]).
Proof.
  assert (N : 0 <= log_set_method_rc all_succeed LOG_METHOD_NULL None)
    by (simpl; lia).
  split; [exact N|]. split.
  - exact (proj2 (managed_without_log_options_is_silent all_succeed
                    "obfsproxy" N)).
  - exact (proj1 (managed_without_log_options_is_silent all_succeed
                    "obfsproxy" N)
             ["--no-safe-logging"; "--managed"; "obfs2"] _ _
             eq_refl eq_refl eq_refl eq_refl).
Defined.

Section Remainder.

Variable C : collaborators.

(** C8: [handle_obfsproxy_args] consumes exactly the leading run of
    arguments that begin with "--".  Whenever it returns, the count it
    returns is one more than the length of that run, and [argv] from
    there on is the first argument that does not begin with "--"
    together with everything after it, unchanged.  It does return
    whenever the scan of the run meets no fatal error and [--managed]
    is not in the run, and then [obfs_main] hands exactly that
    remainder to the external launcher; with an empty run it returns 1
    and changes nothing.  For ["obfs2"; "--dest=1.2.3.4:80"] the run
    is empty, the mode is External and the remainder is the whole
    list. *)
Theorem option_prefix_consumed (argv0 : string) (args : list string) :
  (forall skip w,
      handle_obfsproxy_args C (argv0 :: args) initial_world = Ret skip w ->
      skip = 1 + Z.of_nat (List.length (option_prefix args))
      /\ skipn (Z.to_nat skip) (argv0 :: args) = remainder args
      /\ args = (option_prefix args ++ remainder args)%list
      /\ Forall (fun a => is_option a = true) (option_prefix args)
      /\ match remainder args with
         | [] => True
         | a :: _ => is_option a = false
         end)
  /\ (forall l w,
        scan_args C args locals0 initial_world = Ret l w ->
        existsb is_managed_opt (option_prefix args) = false ->
        handle_obfsproxy_args C (argv0 :: args) initial_world
        = Ret (1 + Z.of_nat (List.length (option_prefix args))) w
        /\ proxy_mode w (remainder args) = External (remainder args)
        /\ exists rc w',
             run_obfsproxy C (argv0 :: args) = Ret rc w'
             /\ output w' = [EvLogNotice "Starting.";
                             EvLaunchExternal (remainder args)])
  /\ (option_prefix args = [] ->
      handle_obfsproxy_args C (argv0 :: args) initial_world
      = Ret 1 initial_world
      /\ remainder args = args
      /\ proxy_mode initial_world (remainder args) = External args)
  /\ (option_prefix ["obfs2"; "--dest=1.2.3.4:80"] = []
      /\ remainder ["obfs2"; "--dest=1.2.3.4:80"]
         = ["obfs2"; "--dest=1.2.3.4:80"]
      /\ handle_obfsproxy_args C ["obfsproxy"; "obfs2"; "--dest=1.2.3.4:80"]
           initial_world = Ret 1 initial_world
      /\ proxy_mode initial_world
           (skipn 1 ["obfsproxy"; "obfs2"; "--dest=1.2.3.4:80"])
         = External ["obfs2"; "--dest=1.2.3.4:80"]).
Proof.
  destruct (option_prefix_remainder args) as (P1 & P2 & P3 & P4).
  assert (K : forall n : nat, Z.to_nat (1 + Z.of_nat n) = S n) by (intros; lia).
  split; [|split; [|split]].
  - intros skip w H.
    rewrite handle_obfsproxy_args_eq in H.
    destruct (scan_args C args locals0 initial_world) as [l w1|c w1] eqn:S;
      [|discriminate H].
    pose proof (scan_args_ret _ _ _ _ _ _ S) as (_ & Si & _).
    change (i locals0) with 1 in Si.
    assert (E : skip = i l).
    { repeat match type of H with
             | context [if ?b then _ else _] => destruct b
             end; inversion H; reflexivity. }
    rewrite E, Si, K; simpl skipn.
    repeat split; assumption.
  - intros l w S Hm.
    pose proof (scan_args_ret _ _ _ _ _ _ S) as (So & Si & _ & _ & Se & _).
    rewrite Hm in Se; simpl in Se, So.
    change (i locals0) with 1 in Si.
    assert (H : handle_obfsproxy_args C (argv0 :: args) initial_world
                = Ret (1 + Z.of_nat (List.length (option_prefix args))) w).
    { rewrite handle_obfsproxy_args_eq, S, Se, Si; reflexivity. }
    split; [exact H|].
    split; [unfold proxy_mode; rewrite Se; reflexivity|].
    rewrite run_obfsproxy_eq, H; cbv zeta.
    rewrite Se, K; simpl negb; cbv iota; simpl skipn; rewrite P4.
    eexists _, _; split; [reflexivity|].
    simpl; rewrite So; reflexivity.
  - intros E.
    assert (S : scan_args C args locals0 initial_world
                = Ret locals0 initial_world).
    { destruct args as [|a args]; [reflexivity|].
      rewrite scan_args_cons; simpl in E.
      destruct (is_option a); [discriminate E|reflexivity]. }
    assert (R : remainder args = args)
      by (rewrite P1 at 2; rewrite E; reflexivity).
    rewrite handle_obfsproxy_args_eq, S, R.
    repeat split.
  - repeat split.
Qed.

(** C10: for [--no-log] followed by [--log-file=<path>], provided the
    logging module accepts both methods, no conflict is reported, the
    call returns 3 and logging ends up directed to the file: the test
    for a second log file looks at [logfile_set] only.  After
    [--no-log], a [--log-min-severity=] or a second [--no-log] is
    refused as a conflict. *)
Theorem no_log_then_log_file (argv0 path sev : string) :
  0 <= log_set_method_rc C LOG_METHOD_NULL None ->
  0 <= log_set_method_rc C LOG_METHOD_FILE (Some path) ->
  (exists w',
      handle_obfsproxy_args C [argv0; "--no-log"; "--log-file=" ++ path]
        initial_world = Ret 3 w'
      /\ log_dest w' = File path
      /\ output w' = []
      /\ proxy_mode w' [] = External []
      /\ exists rc w'',
           run_obfsproxy C [argv0; "--no-log"; "--log-file=" ++ path]
           = Ret rc w''
           /\ log_dest w'' = File path
           /\ existsb is_config_conflict (output w'') = false)
  /\ (exists e w',
        run_obfsproxy C [argv0; "--no-log"; "--log-min-severity=" ++ sev]
        = Exit 1 w'
        /\ output w' = [e] /\ is_config_conflict e = true)
  /\ (exists e w',
        run_obfsproxy C [argv0; "--no-log"; "--no-log"] = Exit 1 w'
        /\ output w' = [e] /\ is_config_conflict e = true).
Proof.
  intros N F; apply Z.ltb_ge in N, F.
  assert (S1 : scan_args C ["--no-log"] locals0 initial_world
               = Ret {| logfile_set := 0; logsev_set := 1; i := 2 |}
                     (world_of (set_log_dest NullSink initial_world))).
  { rewrite scan_args_cons, handle_option_eq.
    change (is_option "--no-log") with true.
    change (is_log_file_opt "--no-log") with false.
    change (is_min_severity_opt "--no-log") with false.
    change (is_no_log_opt "--no-log") with true.
    cbv iota; simpl negb; cbv iota; rewrite N; reflexivity. }
  split; [|split].
  - assert (H : handle_obfsproxy_args C
                  [argv0; "--no-log"; "--log-file=" ++ path] initial_world
                = Ret 3 (world_of (set_log_dest (File path) initial_world))).
    { rewrite handle_obfsproxy_args_eq.
      rewrite (scan_args_app C ["--no-log"] ["--log-file=" ++ path]),
        S1 by (repeat constructor).
      rewrite scan_args_cons, handle_option_eq.
      change (is_option ("--log-file=" ++ path)) with true.
      change (is_log_file_opt ("--log-file=" ++ path)) with true.
      change (str_offset 11 ("--log-file=" ++ path)) with path.
      cbv iota; simpl negb; cbv iota; rewrite F; reflexivity. }
    eexists; split; [exact H|].
    repeat split.
    rewrite run_obfsproxy_eq, H; cbv zeta; simpl.
    eexists _, _; split; [reflexivity|]; split; reflexivity.
  - eapply (second_option_conflict C argv0 ["--no-log"]
              ("--log-min-severity=" ++ sev) []);
      [repeat constructor|right; split; reflexivity|exact S1].
  - eapply (second_option_conflict C argv0 ["--no-log"] "--no-log" []);
      [repeat constructor|right; split; reflexivity|exact S1].
Qed.

End Remainder.

Lemma option_prefix_consumed_witness :
  handle_obfsproxy_args all_succeed
    ["obfsproxy"; "--no-safe-logging"; "obfs2"; "--dest=1.2.3.4:80"]
    initial_world
  = Ret 2 (world_of (set_safe_logging 0 initial_world))
  /\ 2 = 1 + Z.of_nat
           (List.length
              (option_prefix ["--no-safe-logging"; "obfs2"; "--dest=1.2.3.4:80"]))
  /\ skipn (Z.to_nat 2)
       ["obfsproxy"; "--no-safe-logging"; "obfs2"; "--dest=1.2.3.4:80"]
     = remainder ["--no-safe-logging"; "obfs2"; "--dest=1.2.3.4:80"].
Proof.
  split; [reflexivity|].
  destruct (proj1 (option_prefix_consumed all_succeed "obfsproxy"
                     ["--no-safe-logging"; "obfs2"; "--dest=1.2.3.4:80"])
              2 (world_of (set_safe_logging 0 initial_world)) eq_refl)
    as (H1 & H2 & _).
  split; [exact H1|exact H2].
Defined.

Lemma no_log_then_log_file_witness :
  0 <= log_set_method_rc all_succeed LOG_METHOD_NULL None
  /\ 0 <= log_set_method_rc all_succeed LOG_METHOD_FILE (Some "/tmp/x.log")
  /\ exists w',
       handle_obfsproxy_args all_succeed
         ["obfsproxy"; "--no-log"; "--log-file=" ++ "/tmp/x.log"]
         initial_world = Ret 3 w'
       /\ log_dest w' = File "/tmp/x.log"
       /\ output w' = [].
Proof.
  assert (N : 0 <= log_set_method_rc all_succeed LOG_METHOD_NULL None)
    by (simpl; lia).
  assert (F : 0 <= log_set_method_rc all_succeed LOG_METHOD_FILE
                     (Some "/tmp/x.log"))
    by (simpl; lia).
  split; [exact N|]. split; [exact F|].
  destruct (proj1 (no_log_then_log_file all_succeed "obfsproxy"
                     "/tmp/x.log" "debug" N F))
    as (w' & H & Hd & Ho & _).
  exists w'; repeat split; assumption.
Defined.

Lemma is_supported_protocol_iff_witness :
  (~ exists p, In p [{| name := "obfs2" |}; {| name := "dummy" |}]
               /\ name p = "")
  /\ is_supported_protocol
       [{| name := "obfs2" |}; {| name := "dummy" |}] "" = 0.
Proof.
  assert (N : ~ exists p,
                In p [{| name := "obfs2" |}; {| name := "dummy" |}]
                /\ name p = "").
  { intros [p [[<-|[<-|[]]] E]]; discriminate E. }
  split; [exact N|].
  exact (proj1 (proj2 (is_supported_protocol_iff
                         [{| name := "obfs2" |}; {| name := "dummy" |}])) N).
Defined.

(* ================================================================== *)
(** * Further properties *)

(** ** The option scan *)

Section ScanProperties.

Variable C : collaborators.

(** What a handled option leaves in the process state, and what its
    being handled tells about the flags before it. *)
Lemma handle_option_ret_state a l w l' w' :
  handle_option C a l w = Ret l' w' ->
  is_recognized a = true
  /\ safe_logging w'
     = (if is_no_safe_logging_opt a then 0 else safe_logging w)
  /\ log_min_sev w' = severity_after (log_min_sev w) a
  /\ log_dest w' = destination_after (log_dest w) a
  /\ got_sigint w' = got_sigint w
  /\ (is_log_file_opt a = true ->
      logfile_set l = 0
      /\ 0 <= log_set_method_rc C LOG_METHOD_FILE (Some (str_offset 11 a)))
  /\ (is_min_severity_opt a = true ->
      logsev_set l = 0
      /\ 0 <= log_set_min_severity_rc C (str_offset 19 a))
  /\ (is_no_log_opt a = true ->
      logsev_set l = 0 /\ 0 <= log_set_method_rc C LOG_METHOD_NULL None).
Proof.
  rewrite handle_option_eq.
  unfold is_recognized, severity_after, destination_after.
  destruct (option_kind_total a) as [H1 H2 H3 H4 H5 H6|H1 H2 H3 H4 H5 H6
    |H1 H2 H3 H4 H5 H6|H1 H2 H3 H4 H5 H6|H1 H2 H3 H4 H5 H6|H1 H2 H3 H4 H5];
    rewrite ?H1, ?H2, ?H3, ?H4, ?H5; simpl orb; cbv iota.
  - destruct (logfile_set l =? 0) eqn:G; simpl negb; cbv iota;
      [|discriminate].
    destruct (_ <? 0) eqn:R; [discriminate|].
    apply Z.eqb_eq in G; apply Z.ltb_ge in R.
    intros [= <- <-]; repeat split; try discriminate; assumption.
  - destruct (logsev_set l =? 0) eqn:G; simpl negb; cbv iota;
      [|discriminate].
    destruct (_ <? 0) eqn:R; [discriminate|].
    apply Z.eqb_eq in G; apply Z.ltb_ge in R.
    intros [= <- <-]; repeat split; try discriminate; assumption.
  - destruct (logsev_set l =? 0) eqn:G; simpl negb; cbv iota;
      [|discriminate].
    destruct (_ <? 0) eqn:R; [discriminate|].
    apply Z.eqb_eq in G; apply Z.ltb_ge in R.
    intros [= <- <-]; repeat split; try discriminate; assumption.
  - intros [= <- <-]; repeat split; discriminate.
  - intros [= <- <-]; repeat split; discriminate.
  - discriminate.
Qed.

(** The same for the whole loop. *)
Lemma scan_args_ret_state args : forall l w l' w',
  scan_args C args l w = Ret l' w' ->
  Forall (fun a => is_recognized a = true) (option_prefix args)
  /\ safe_logging w'
     = (if existsb is_no_safe_logging_opt (option_prefix args)
        then 0 else safe_logging w)
  /\ log_min_sev w'
     = fold_left severity_after (option_prefix args) (log_min_sev w)
  /\ log_dest w'
     = fold_left destination_after (option_prefix args) (log_dest w)
  /\ got_sigint w' = got_sigint w
  /\ (List.length (filter is_log_file_opt (option_prefix args))
      + (if (logfile_set l =? 0)%Z then 0 else 1) <= 1)%nat
  /\ (List.length (filter is_severity_setting (option_prefix args))
      + (if (logsev_set l =? 0)%Z then 0 else 1) <= 1)%nat
  /\ Forall (fun a =>
               (is_log_file_opt a = true ->
                0 <= log_set_method_rc C LOG_METHOD_FILE
                       (Some (str_offset 11 a)))
               /\ (is_min_severity_opt a = true ->
                   0 <= log_set_min_severity_rc C (str_offset 19 a))
               /\ (is_no_log_opt a = true ->
                   0 <= log_set_method_rc C LOG_METHOD_NULL None))
            (option_prefix args).
Proof.
  induction args as [|a args IH]; intros l w l' w'.
  - simpl. intros [= <- <-].
    split; [constructor|]. split; [reflexivity|]. split; [reflexivity|].
    split; [reflexivity|]. split; [reflexivity|].
    split; [destruct (logfile_set l =? 0); lia|].
    split; [destruct (logsev_set l =? 0); lia|constructor].
  - rewrite scan_args_cons; simpl option_prefix.
    destruct (is_option a) eqn:O.
    2:{ intros [= <- <-]; simpl.
        split; [constructor|]. split; [reflexivity|]. split; [reflexivity|].
        split; [reflexivity|]. split; [reflexivity|].
        split; [destruct (logfile_set l =? 0); lia|].
        split; [destruct (logsev_set l =? 0); lia|constructor]. }
    destruct (handle_option C a l w) as [l1 w1|c w1] eqn:H; [|discriminate].
    pose proof (handle_option_ret _ _ _ _ _ _ H)
      as (_ & _ & _ & Hf & Hs & _ & _).
    apply handle_option_ret_state in H.
    destruct H as (Hr & Hsl & Hms & Hd & Hg & Kf & Km & Kn).
    intros S; apply IH in S; simpl in S.
    destruct S as (Sr & Ssl & Sms & Sd & Sg & Scf & Scs & Sok).
    rewrite Hf in Scf; rewrite Hs in Scs.
    split; [constructor; assumption|].
    split.
    { rewrite Ssl, Hsl; simpl existsb.
      destruct (is_no_safe_logging_opt a),
        (existsb is_no_safe_logging_opt (option_prefix args)); reflexivity. }
    split; [rewrite Sms, Hms; reflexivity|].
    split; [rewrite Sd, Hd; reflexivity|].
    split; [congruence|].
    split.
    { simpl filter. destruct (is_log_file_opt a) eqn:F; simpl List.length.
      - destruct (Kf eq_refl) as [-> _]. simpl in Scf |- *. lia.
      - exact Scf. }
    split.
    { simpl filter. destruct (is_severity_setting a) eqn:F; simpl List.length.
      - assert (G : logsev_set l = 0).
        { unfold is_severity_setting in F; apply orb_true_iff in F.
          destruct F as [F|F]; [apply (Km F)|apply (Kn F)]. }
        rewrite G; simpl in Scs |- *; lia.
      - exact Scs. }
    constructor; [|exact Sok].
    split; [intros F; apply (Kf F)|].
    split; [intros F; apply (Km F)|intros F; apply (Kn F)].
Qed.

(** How [handle_obfsproxy_args] ends, in terms of the loop. *)
Lemma handle_obfsproxy_args_ret argv0 args skip w :
  handle_obfsproxy_args C (argv0 :: args) initial_world = Ret skip w ->
  exists l w1,
    scan_args C args locals0 initial_world = Ret l w1
    /\ skip = i l
    /\ ((existsb is_managed_opt (option_prefix args) = true
         /\ existsb is_log_file_opt (option_prefix args) = false
         /\ existsb is_severity_setting (option_prefix args) = false
         /\ w = world_of (set_log_dest NullSink w1))
        \/ ((existsb is_managed_opt (option_prefix args) = false
             \/ existsb is_log_file_opt (option_prefix args) = true)
            /\ w = w1)).
Proof.
  rewrite handle_obfsproxy_args_eq.
  destruct (scan_args C args locals0 initial_world) as [l w1|c w1] eqn:S;
    [|discriminate].
  pose proof (scan_args_ret _ _ _ _ _ _ S) as (_ & _ & Sf & Ss & Se & _).
  simpl in Sf, Ss, Se.
  exists l, w1; split; [reflexivity|].
  rewrite Sf, Ss, Se in H.
  destruct (existsb is_managed_opt (option_prefix args)),
    (existsb is_log_file_opt (option_prefix args)),
    (existsb is_severity_setting (option_prefix args));
    simpl in H; try discriminate H;
    try (destruct (log_set_method_rc C LOG_METHOD_NULL None <? 0);
         try discriminate H);
    injection H as <- <-; split; try reflexivity; auto.
Qed.

Lemma handle_option_exit_diagnostic a l w c w' :
  handle_option C a l w = Exit c w' ->
  c = 1 /\ exists e, output w' = (output w ++ [e])%list
                     /\ is_diagnostic e = true.
Proof.
  rewrite handle_option_eq.
  repeat match goal with
         | |- context [if ?b then _ else _] => destruct b
         end;
    intros [= <- <-]; (split; [reflexivity|]); eexists;
    (split; [reflexivity|reflexivity]).
Qed.

Lemma scan_args_exit_diagnostic args : forall l w c w',
  scan_args C args l w = Exit c w' ->
  c = 1 /\ exists e, output w' = (output w ++ [e])%list
                     /\ is_diagnostic e = true.
Proof.
  induction args as [|a args IH]; intros l w c w'; [discriminate|].
  rewrite scan_args_cons.
  destruct (is_option a); [|discriminate].
  destruct (handle_option C a l w) as [l1 w1|c1 w1] eqn:H.
  - apply handle_option_ret in H; destruct H as (_ & Ho & _).
    intros S; apply IH in S; rewrite Ho in S; exact S.
  - intros [= <- <-]; exact (handle_option_exit_diagnostic _ _ _ _ _ H).
Qed.

Lemma handle_obfsproxy_args_exit argv0 args c w :
  handle_obfsproxy_args C (argv0 :: args) initial_world = Exit c w ->
  c = 1 /\ exists e, output w = [e] /\ is_diagnostic e = true.
Proof.
  rewrite handle_obfsproxy_args_eq.
  destruct (scan_args C args locals0 initial_world) as [l w1|c1 w1] eqn:S.
  - pose proof (scan_args_ret _ _ _ _ _ _ S) as (So & _).
    simpl in So.
    repeat match goal with
           | |- context [if ?b then _ else _] => destruct b
           end;
      intros [= <- <-]; (split; [reflexivity|]); simpl; rewrite So;
      eexists; (split; [reflexivity|reflexivity]).
  - intros [= <- <-]; exact (scan_args_exit_diagnostic _ _ _ _ _ S).
Qed.

(** X1: an argument of the leading run that begins with "--" and is
    none of the five options ends the process with code 1 before either
    launcher is called; when the scan gets as far as that argument, the
    one diagnostic printed names it. *)
Theorem unrecognized_option_is_fatal
        (argv0 : string) (pre : list string) (a : string)
        (rest : list string) :
  Forall (fun x => is_option x = true) pre ->
  is_option a = true ->
  is_recognized a = false ->
  (exists w', run_obfsproxy C (argv0 :: pre ++ a :: rest) = Exit 1 w'
              /\ existsb is_launch (output w') = false)
  /\ (forall l w,
         scan_args C pre locals0 initial_world = Ret l w ->
         exists w',
           run_obfsproxy C (argv0 :: pre ++ a :: rest) = Exit 1 w'
           /\ output w'
              = [EvLogError ("Unrecognizable obfsproxy argument '"
                             ++ a ++ "'")]).
Proof.
  intros F Oa U.
  unfold is_recognized in U.
  apply orb_false_iff in U; destruct U as [U U5].
  apply orb_false_iff in U; destruct U as [U U4].
  apply orb_false_iff in U; destruct U as [U U3].
  apply orb_false_iff in U; destruct U as [U1 U2].
  assert (R : forall l w,
             scan_args C pre locals0 initial_world = Ret l w ->
             exists w',
               run_obfsproxy C (argv0 :: pre ++ a :: rest) = Exit 1 w'
               /\ output w'
                  = [EvLogError ("Unrecognizable obfsproxy argument '"
                                 ++ a ++ "'")]).
  { intros l w S.
    pose proof (scan_args_ret _ _ _ _ _ _ S) as (So & _).
    eexists; split.
    - apply run_obfsproxy_exit.
      rewrite handle_obfsproxy_args_eq, (scan_args_app _ _ _ _ _ F), S,
        scan_args_cons, Oa, handle_option_eq, U1, U2, U3, U4, U5.
      reflexivity.
    - simpl; rewrite So; reflexivity. }
  split; [|exact R].
  destruct (scan_args C pre locals0 initial_world) as [l w|c w] eqn:S.
  - destruct (R l w eq_refl) as (w' & Hr & Ho).
    exists w'; split; [exact Hr|rewrite Ho; reflexivity].
  - pose proof (scan_args_exit _ _ _ _ _ _ S) as (-> & e & Ho & Hl).
    exists w; split.
    + apply run_obfsproxy_exit.
      rewrite handle_obfsproxy_args_eq, (scan_args_app _ _ _ _ _ F), S;
        reflexivity.
    + rewrite Ho; simpl; rewrite Hl; reflexivity.
Qed.

Lemma fold_destination_default pre : forall d,
  fold_left destination_after pre d = ExternalDefault ->
  d = ExternalDefault
  /\ existsb is_log_file_opt pre = false
  /\ existsb is_no_log_opt pre = false.
Proof.
  induction pre as [|a pre IH]; intros d; simpl; [auto|].
  intros H; apply IH in H; destruct H as (H & F & N).
  unfold destination_after in H.
  destruct (is_log_file_opt a); [discriminate H|].
  destruct (is_no_log_opt a); [discriminate H|].
  rewrite F, N; auto.
Qed.

(** X2: when [handle_obfsproxy_args] returns, the log destination is
    the one set by the last [--log-file=] or [--no-log] of the leading
    run, whichever comes later, and the default when there is none;
    except that managed mode without a log file gets the null sink. *)
Theorem resolved_log_destination
        (argv0 : string) (args : list string) (skip : Z) (w : world) :
  handle_obfsproxy_args C (argv0 :: args) initial_world = Ret skip w ->
  log_dest w
  = if existsb is_managed_opt (option_prefix args)
       && negb (existsb is_log_file_opt (option_prefix args))
    then NullSink
    else fold_left destination_after (option_prefix args) ExternalDefault.
Proof.
  intros H; apply handle_obfsproxy_args_ret in H.
  destruct H as (l & w1 & S & _ & K).
  apply scan_args_ret_state in S.
  destruct S as (_ & _ & _ & Sd & _).
  simpl in Sd.
  destruct K as [(Km & Kf & _ & ->)|([Km|Kf] & ->)].
  - rewrite Km, Kf; reflexivity.
  - rewrite Km; exact Sd.
  - rewrite Kf, andb_false_r; exact Sd.
Qed.

(** X3: whenever the options are accepted in managed mode, logging does
    not go to the default destination: it goes to a file or nowhere. *)
Theorem managed_never_logs_to_default
        (argv0 : string) (args : list string) (skip : Z) (w : world) :
  handle_obfsproxy_args C (argv0 :: args) initial_world = Ret skip w ->
  existsb is_managed_opt (option_prefix args) = true ->
  is_external_proxy w = 0 /\ log_dest w <> ExternalDefault.
Proof.
  intros H Hm.
  apply handle_obfsproxy_args_ret in H.
  destruct H as (l & w1 & S & _ & K).
  pose proof (scan_args_ret _ _ _ _ _ _ S) as (_ & _ & _ & _ & Se & _).
  apply scan_args_ret_state in S.
  destruct S as (_ & _ & _ & Sd & _).
  simpl in Sd; rewrite Hm in Se.
  destruct K as [(_ & _ & _ & ->)|([Km|Kf] & ->)].
  - split; [exact Se|discriminate].
  - congruence.
  - split; [exact Se|].
    rewrite Sd; intros E; apply fold_destination_default in E.
    destruct E as (_ & E & _); congruence.
Qed.

(** X4: when [handle_obfsproxy_args] returns it has printed nothing;
    address scrubbing is off exactly when [--no-safe-logging] is in the
    leading run, the mode flag is cleared exactly when [--managed] is,
    and the minimum severity is the one of [--log-min-severity=], unset
    when there is none. *)
Theorem resolved_flags
        (argv0 : string) (args : list string) (skip : Z) (w : world) :
  handle_obfsproxy_args C (argv0 :: args) initial_world = Ret skip w ->
  output w = []
  /\ safe_logging w
     = (if existsb is_no_safe_logging_opt (option_prefix args)
        then 0 else 1)
  /\ is_external_proxy w
     = (if existsb is_managed_opt (option_prefix args) then 0 else 1)
  /\ log_min_sev w
     = match find is_min_severity_opt (option_prefix args) with
       | Some a => Some (str_offset 19 a)
       | None => None
       end
  /\ got_sigint w = 0.
Proof.
  intros H; apply handle_obfsproxy_args_ret in H.
  destruct H as (l & w1 & S & _ & K).
  pose proof (scan_args_ret _ _ _ _ _ _ S) as (So & _ & _ & _ & Se & _).
  apply scan_args_ret_state in S.
  destruct S as (_ & Ssl & Sms & _ & Sg & _ & Scs & _).
  simpl in So, Se, Ssl, Sms, Sg, Scs.
  assert (M : log_min_sev w1
              = match find is_min_severity_opt (option_prefix args) with
                | Some a => Some (str_offset 19 a)
                | None => None
                end).
  { rewrite Sms; clear - Scs.
    assert (G : forall pre m,
               (List.length (filter is_severity_setting pre) <= 1)%nat ->
               fold_left severity_after pre m
               = match find is_min_severity_opt pre with
                 | Some a => Some (str_offset 19 a)
                 | None => m
                 end).
    { induction pre as [|a pre IH]; intros m Hc; simpl; [reflexivity|].
      simpl in Hc; unfold is_severity_setting in Hc at 1.
      unfold severity_after at 2.
      destruct (is_min_severity_opt a) eqn:E; simpl in Hc.
      - rewrite IH by lia.
        destruct (find is_min_severity_opt pre) as [b|] eqn:Fb;
          [|reflexivity].
        apply find_some in Fb; destruct Fb as [Fi Fb].
        assert (In b (filter is_severity_setting pre)).
        { apply filter_In; split; [exact Fi|].
          unfold is_severity_setting; rewrite Fb; reflexivity. }
        destruct (filter is_severity_setting pre); [contradiction|].
        simpl in Hc; lia.
      - apply IH. destruct (is_no_log_opt a); simpl in Hc; lia. }
    apply G; lia. }
  destruct K as [(_ & _ & _ & ->)|(_ & ->)]; simpl;
    repeat split; assumption.
Qed.

(** X5: the process ends in one of two ways.  Either the options are
    refused: the exit code is 1, exactly one diagnostic has been
    emitted, and neither "Starting." nor a launcher call has happened.
    Or they are accepted: "Starting." is logged, then exactly one
    launcher is called, the managed one when [--managed] is in the
    leading run and otherwise the external one with the remainder of
    the arguments, and the exit code is 1 if the launcher answers a
    negative value and 0 otherwise. *)
Theorem run_obfsproxy_outcome (argv0 : string) (args : list string) :
  match run_obfsproxy C (argv0 :: args) with
  | Exit c w =>
      c = 1 /\ exists e, output w = [e] /\ is_diagnostic e = true
  | Ret rc w =>
      if existsb is_managed_opt (option_prefix args)
      then output w = [EvLogNotice "Starting."; EvLaunchManaged]
           /\ rc = (if launch_managed_proxy_rc C <? 0 then 1 else 0)
      else output w = [EvLogNotice "Starting.";
                       EvLaunchExternal (remainder args)]
           /\ rc = (if launch_external_proxy_rc C (remainder args) <? 0
                    then 1 else 0)
  end.
Proof.
  rewrite run_obfsproxy_eq.
  destruct (handle_obfsproxy_args C (argv0 :: args) initial_world)
    as [skip w|c w] eqn:H.
  - apply handle_obfsproxy_args_ret in H.
    destruct H as (l & w1 & Hs & -> & K).
    pose proof (scan_args_ret _ _ _ _ _ _ Hs)
      as (Ho1 & Si & _ & _ & He1 & _).
    change (i locals0) with 1 in Si.
    assert (Ho : output w = []).
    { destruct K as [(_ & _ & _ & ->)|(_ & ->)]; exact Ho1. }
    assert (He : is_external_proxy w
                 = if existsb is_managed_opt (option_prefix args)
                   then 0 else 1).
    { destruct K as [(_ & _ & _ & ->)|(_ & ->)]; exact He1. }
    destruct (option_prefix_remainder args) as (_ & _ & _ & P4).
    assert (B : skipn (Z.to_nat (i l)) (argv0 :: args) = remainder args).
    { rewrite Si.
      replace (Z.to_nat (1 + Z.of_nat (List.length (option_prefix args))))
        with (S (List.length (option_prefix args))) by lia.
      exact P4. }
    cbv zeta; rewrite B, He.
    destruct (existsb is_managed_opt (option_prefix args)); simpl;
      rewrite Ho; split; reflexivity.
  - apply handle_obfsproxy_args_exit in H.
    destruct H as (-> & e & Ho & Hl).
    split; [reflexivity|].
    exists e; split; assumption.
Qed.

End ScanProperties.

Lemma unrecognized_option_is_fatal_witness :
  exists w',
    run_obfsproxy all_succeed
      ["obfsproxy"; "--no-safe-logging"; "--no-logx"; "obfs2"] = Exit 1 w'
    /\ output w'
       = [EvLogError "Unrecognizable obfsproxy argument '--no-logx'"].
Proof.
  refine (proj2 (unrecognized_option_is_fatal all_succeed "obfsproxy"
                   ["--no-safe-logging"] "--no-logx" ["obfs2"] _ _ _)
            _ _ eq_refl).
  - repeat constructor.
  - reflexivity.
  - reflexivity.
Defined.

Lemma resolved_log_destination_witness :
  (exists skip w,
      handle_obfsproxy_args all_succeed
        ["obfsproxy"; "--log-file=/tmp/x"; "--no-log"] initial_world
      = Ret skip w
      /\ log_dest w = NullSink)
  /\ (exists skip w,
        handle_obfsproxy_args all_succeed
          ["obfsproxy"; "--no-log"; "--log-file=/tmp/x"] initial_world
        = Ret skip w
        /\ log_dest w = File "/tmp/x").
Proof.
  split; eexists _, _; (split; [reflexivity|]).
  - exact (resolved_log_destination all_succeed "obfsproxy"
             ["--log-file=/tmp/x"; "--no-log"] _ _ eq_refl).
  - exact (resolved_log_destination all_succeed "obfsproxy"
             ["--no-log"; "--log-file=/tmp/x"] _ _ eq_refl).
Defined.

Lemma managed_never_logs_to_default_witness :
  exists skip w,
    handle_obfsproxy_args all_succeed
      ["obfsproxy"; "--log-file=/tmp/x"; "--managed"] initial_world
    = Ret skip w
    /\ is_external_proxy w = 0
    /\ log_dest w <> ExternalDefault.
Proof.
  eexists _, _; split; [reflexivity|].
  exact (managed_never_logs_to_default all_succeed "obfsproxy"
           ["--log-file=/tmp/x"; "--managed"] _ _ eq_refl eq_refl).
Defined.

Lemma resolved_flags_witness :
  exists skip w,
    handle_obfsproxy_args all_succeed
      ["obfsproxy"; "--no-safe-logging"; "--log-min-severity=debug"; "obfs2"]
      initial_world = Ret skip w
    /\ safe_logging w = 0
    /\ log_min_sev w = Some "debug".
Proof.
  eexists _, _; split; [reflexivity|].
  destruct (resolved_flags all_succeed "obfsproxy"
              ["--no-safe-logging"; "--log-min-severity=debug"; "obfs2"]
              _ _ eq_refl)
    as (_ & H1 & _ & H2 & _).
  split; [exact H1|exact H2].
Defined.

(** ** Sequences of signals *)



(** X7: the handler never ends the process and never touches the mode
    flag, the scrubbing flag or the logging settings; and signal
    numbers other than SIGINT and SIGTERM do nothing at all: dropping
    them from the sequence gives the same final state. *)
Theorem signals_leave_settings_alone (sigs : list Z) (w : world) :
  exists w',
    deliver sigs w = Ret tt w'
    /\ is_external_proxy w' = is_external_proxy w
    /\ safe_logging w' = safe_logging w
    /\ log_dest w' = log_dest w
    /\ log_min_sev w' = log_min_sev w
    /\ deliver (filter (fun s => is_sigint s || is_sigterm s) sigs) w
       = Ret tt w'.
Proof.
  destruct (deliver_run sigs w) as (g & evs & D & _).
  eexists; split; [exact D|].
  repeat split.
  rewrite <- D; clear.
  revert w; induction sigs as [|s sigs IH]; intros w; [reflexivity|].
  destruct (handle_signal_cb_returns s EV_SIGNAL w) as (g & evs & H & _).
  simpl filter.
  destruct (is_sigint s || is_sigterm s) eqn:E.
  - rewrite !(deliver_cons _ _ _ _ _ H); apply IH.
  - apply orb_false_iff in E; destruct E as [E1 E2].
    apply Z.eqb_neq in E1, E2.
    pose proof (handle_signal_cb_other s EV_SIGNAL w E1 E2) as H'.
    rewrite <- (after_signal_id w) in H' at 2.
    rewrite (deliver_cons _ _ _ _ _ H'), after_signal_id; apply IH.
Qed.

(** ** Start-up and tear-down *)

Lemma made_after {A} (m : LM A) s a s' cs :
  m s = LRet a s' -> calls s' = (calls s ++ cs)%list -> made m s = cs.
Proof.
  intros H E; unfold made; rewrite H; simpl; rewrite E.
  apply skipn_length_app.
Qed.

Lemma lift_emit e s : lift (emit e) s = LRet tt (after_events s [e]).
Proof.
  unfold lift, emitted, emit, after_events, after_signal; simpl.
  rewrite skipn_length_app; reflexivity.
Qed.

Lemma lift_log_error msg s :
  lift (log_error (A := unit) msg) s
  = LExit 1 (after_events s [EvLogError msg]).
Proof.
  unfold lift, emitted, log_error, bind, emit, exit, after_events,
    after_signal; simpl.
  rewrite skipn_length_app; reflexivity.
Qed.

Section LifecycleProperties.

Variable L : libraries.

(** [obfsproxy_init] written as: the calls up to the first failing
    step, then that step's error; or all of them. *)
Lemma obfsproxy_init_run (s : lifecycle) :
  obfsproxy_init L s
  = match init_failure L with
    | Some (k, msg) =>
        LExit 1 (after_events (init_progress L s k) [EvLogError msg])
    | None => LRet tt (init_progress L s 11)
    end.
Proof.
  unfold init_failure; cbv zeta.
  destruct (initialize_crypto_rc L <? 0) eqn:E1;
    [|destruct (event_base_new_ptr L =? 0) eqn:E2;
      [|destruct (init_evdns_base_rc L (event_base_new_ptr L) =? 0) eqn:E3;
        [destruct (event_add_rc L
                     (evsignal_new_ptr L (event_base_new_ptr L) SIGINT)
                     None =? 0) eqn:E4;
         [destruct (event_add_rc L
                      (evsignal_new_ptr L (event_base_new_ptr L) SIGTERM)
                      None =? 0) eqn:E5;
          [destruct (event_add_rc L
                       (event_new_ptr L (event_base_new_ptr L) (-1)
                          EV_PERSIST)
                       (Some (3600, 0)) =? 0) eqn:E6|]|]|]]];
    simpl negb; cbv iota;
    unfold obfsproxy_init, initialize_crypto, event_base_new,
      init_evdns_base, evsignal_new, event_new, event_add, lbind, lret,
      lread, do_call, set_the_event_base, set_sig_int, set_sig_term,
      set_heartbeat;
    repeat progress
      (cbn [the_event_base sig_int sig_term heartbeat proc calls negb];
       rewrite ?E1, ?E2, ?E3, ?E4, ?E5, ?E6, ?lift_log_error);
    unfold init_progress, init_sequence, after_events;
    cbn [the_event_base sig_int sig_term heartbeat proc calls firstn
         Nat.ltb Nat.leb map];
    rewrite <- ?app_assoc; reflexivity.
Qed.

(** X8: [obfsproxy_init] makes its calls in one fixed order and stops at
    the first step that fails: it then logs that step's error and ends
    the process with code 1, having made no later call and set no later
    pointer; a failure to add the SIGINT event means the SIGTERM event
    is not added.  It returns exactly when no step fails, after all
    eleven calls, with the event base, both signal events and the
    heartbeat event stored. *)
Theorem obfsproxy_init_fail_fast (s : lifecycle) :
  match obfsproxy_init L s with
  | LRet _ s' =>
      init_failure L = None
      /\ s' = init_progress L s 11
      /\ made (obfsproxy_init L) s = init_sequence L
  | LExit c s' =>
      c = 1
      /\ exists k msg,
           init_failure L = Some (k, msg)
           /\ (1 <= k <= 11)%nat
           /\ s' = after_events (init_progress L s k) [EvLogError msg]
           /\ made (obfsproxy_init L) s
              = (firstn k (init_sequence L) ++ [CMain (EvLogError msg)])%list
  end.
Proof.
  pose proof (obfsproxy_init_run s) as H.
  destruct (init_failure L) as [[k msg]|] eqn:F.
  - rewrite H; split; [reflexivity|].
    exists k, msg; split; [reflexivity|].
    split.
    { unfold init_failure in F; cbv zeta in F.
      repeat match type of F with
             | context [if ?b then _ else _] => destruct b
             end; inversion F; lia. }
    split; [reflexivity|].
    unfold made; rewrite H; simpl.
    rewrite <- app_assoc; apply skipn_length_app.
  - rewrite H; repeat split.
    apply (made_after _ _ _ _ _ H); reflexivity.
Qed.

Lemma obfsproxy_cleanup_run (s : lifecycle) :
  obfsproxy_cleanup L s
  = LRet tt
      {| proc := after_signal (proc s) (got_sigint (proc s))
                   [EvLogNotice "Exiting."; EvCloseAllListeners];
         the_event_base := the_event_base s;
         sig_int := sig_int s; sig_term := sig_term s;
         heartbeat := heartbeat s;
         calls := calls s ++ cleanup_sequence L s |}.
Proof.
  unfold obfsproxy_cleanup, log_notice, close_all_listeners, lbind.
  rewrite lift_emit, lift_emit.
  unfold get_evdns_base, get_event_base, lbind, lret, lread, do_call,
    after_events, cleanup_sequence.
  cbn [the_event_base sig_int sig_term heartbeat proc calls map].
  destruct (heartbeat s =? 0); cbn [negb];
    cbn [the_event_base sig_int sig_term heartbeat proc calls];
    unfold after_signal;
    cbn [is_external_proxy safe_logging got_sigint log_dest log_min_sev
         output app];
    rewrite <- ?app_assoc; reflexivity.
Qed.

(** X9: [obfsproxy_cleanup] always returns.  It releases the two
    signal events whatever they are, the heartbeat event only when it is
    not NULL, and the event base after all of them; and it leaves the
    four static pointers as they were, so that [get_event_base] still
    returns the released base and a second [obfsproxy_cleanup] makes
    the same calls, releases included, once more. *)
Theorem obfsproxy_cleanup_keeps_pointers (s : lifecycle) :
  exists s',
    obfsproxy_cleanup L s = LRet tt s'
    /\ made (obfsproxy_cleanup L) s = cleanup_sequence L s
    /\ filter is_release (made (obfsproxy_cleanup L) s)
       = ([CEventFree (sig_int s); CEventFree (sig_term s)]
          ++ (if heartbeat s =? 0 then [] else [CEventFree (heartbeat s)])
          ++ [CEventBaseFree (the_event_base s)])%list
    /\ the_event_base s' = the_event_base s
    /\ sig_int s' = sig_int s
    /\ sig_term s' = sig_term s
    /\ heartbeat s' = heartbeat s
    /\ get_event_base s' = LRet (the_event_base s) s'
    /\ made (obfsproxy_cleanup L) s' = made (obfsproxy_cleanup L) s.
Proof.
  pose proof (obfsproxy_cleanup_run s) as H.
  pose proof (made_after _ _ _ _ _ H eq_refl) as M.
  eexists; split; [exact H|].
  split; [exact M|].
  split.
  { rewrite M; unfold cleanup_sequence.
    destruct (heartbeat s =? 0); reflexivity. }
  repeat (split; [reflexivity|]).
  rewrite M.
  match goal with
  | |- made _ ?s1 = _ =>
      rewrite (made_after _ _ _ _ _ (obfsproxy_cleanup_run s1) eq_refl)
  end.
  reflexivity.
Qed.

(** X10: when no step of [obfsproxy_init] fails, a following
    [obfsproxy_cleanup] releases exactly what was created: the event
    returned for SIGINT, the one returned for SIGTERM, the heartbeat
    event unless NULL was returned for it, and last the event base,
    which is not NULL. *)
Theorem init_then_cleanup_releases_all (s : lifecycle) :
  init_failure L = None ->
  let b := event_base_new_ptr L in
  let hb := event_new_ptr L b (-1) EV_PERSIST in
  exists s1 s2,
    obfsproxy_init L s = LRet tt s1
    /\ made (obfsproxy_init L) s = init_sequence L
    /\ obfsproxy_cleanup L s1 = LRet tt s2
    /\ b <> 0
    /\ filter is_release (made (obfsproxy_cleanup L) s1)
       = ([CEventFree (evsignal_new_ptr L b SIGINT);
           CEventFree (evsignal_new_ptr L b SIGTERM)]
          ++ (if hb =? 0 then [] else [CEventFree hb])
          ++ [CEventBaseFree b])%list.
Proof.
  intros F; cbv zeta.
  pose proof (obfsproxy_init_run s) as H; rewrite F in H.
  pose proof (obfsproxy_cleanup_run (init_progress L s 11)) as H2.
  pose proof (made_after _ _ _ _ _ H2 eq_refl) as R.
  eexists (init_progress L s 11), _.
  split; [exact H|].
  split; [exact (made_after _ _ _ _ _ H eq_refl)|].
  split; [exact H2|].
  split.
  - unfold init_failure in F; cbv zeta in F.
    destruct (initialize_crypto_rc L <? 0); [discriminate F|].
    destruct (event_base_new_ptr L =? 0) eqn:B; [discriminate F|].
    apply Z.eqb_neq in B; exact B.
  - rewrite R; unfold cleanup_sequence.
    cbn [heartbeat sig_int sig_term the_event_base init_progress Nat.ltb
         Nat.leb].
    destruct (event_new_ptr L (event_base_new_ptr L) (-1) EV_PERSIST =? 0);
      reflexivity.
Qed.

End LifecycleProperties.

Lemma init_then_cleanup_releases_all_witness :
  init_failure libraries_ok = None
  /\ exists s1 s2,
       obfsproxy_init libraries_ok initial_lifecycle = LRet tt s1
       /\ obfsproxy_cleanup libraries_ok s1 = LRet tt s2
       /\ filter is_release (made (obfsproxy_cleanup libraries_ok) s1)
          = [CEventFree 2; CEventFree 3; CEventFree 4; CEventBaseFree 1].
Proof.
  split; [reflexivity|].
  destruct (init_then_cleanup_releases_all libraries_ok initial_lifecycle
              eq_refl)
    as (s1 & s2 & H1 & _ & H2 & _ & R).
  exists s1, s2; repeat split; assumption.
Defined.

(** ** Usage *)

Lemma string_length_append (a b : string) :
  String.length (a ++ b) = (String.length a + String.length b)%nat.
Proof. induction a as [|c a IH]; simpl; [reflexivity|rewrite IH; reflexivity]. Qed.

Lemma string_append_cancel_r (t : string) : forall a b : string,
  (a ++ t = b ++ t)%string -> a = b.
Proof.
  induction a as [|c a IH]; intros [|d b] H.
  - reflexivity.
  - apply (f_equal String.length) in H.
    simpl in H; rewrite string_length_append in H; lia.
  - apply (f_equal String.length) in H.
    simpl in H; rewrite string_length_append in H; lia.
  - simpl in H; injection H as -> H; f_equal; apply IH; exact H.
Qed.

Lemma after_calls_nil s : after_calls s [] = s.
Proof. destruct s; unfold after_calls; simpl; rewrite app_nil_r; reflexivity. Qed.

Lemma after_calls_twice s a b :
  after_calls (after_calls s a) b = after_calls s (a ++ b).
Proof. unfold after_calls; simpl; rewrite app_assoc; reflexivity. Qed.

Lemma usage_protocols_from_run tbl : forall s,
  usage_protocols_from tbl s
  = LRet tt (after_calls s (map (fun p => CStderr (usage_protocol p)) tbl)).
Proof.
  induction tbl as [|p tbl IH]; intros s; simpl.
  - rewrite after_calls_nil; reflexivity.
  - unfold lbind, do_call.
    change {| proc := proc s; the_event_base := the_event_base s;
              sig_int := sig_int s; sig_term := sig_term s;
              heartbeat := heartbeat s;
              calls := calls s ++ [CStderr (usage_protocol p)] |}
      with (after_calls s [CStderr (usage_protocol p)]).
    rewrite IH, after_calls_twice; reflexivity.
Qed.

(** X11: [usage] writes the heading, then one bracketed name for each
    entry of the protocol table in table order, then the list of
    options, and ends the process with code 1.  The names it prints are
    exactly the names [is_supported_protocol] accepts. *)
Theorem usage_lists_supported_protocols
        (tbl : list protocol_vtable) (s : lifecycle) :
  usage tbl (A := unit) s
  = LExit 1
      (after_calls s
         (CStderr usage_head
          :: map (fun p => CStderr (usage_protocol p)) tbl
          ++ [CStderr usage_tail]))
  /\ forall nm,
       In (CStderr ("[" ++ nm ++ "] ")) (made (usage tbl (A := unit)) s)
       <-> is_supported_protocol tbl nm = 1.
Proof.
  assert (H : usage tbl (A := unit) s
              = LExit 1
                  (after_calls s
                     (CStderr usage_head
                      :: map (fun p => CStderr (usage_protocol p)) tbl
                      ++ [CStderr usage_tail]))).
  { unfold usage, lbind at 1, do_call.
    change {| proc := proc s; the_event_base := the_event_base s;
              sig_int := sig_int s; sig_term := sig_term s;
              heartbeat := heartbeat s;
              calls := calls s ++ [CStderr usage_head] |}
      with (after_calls s [CStderr usage_head]).
    unfold lbind at 1; rewrite usage_protocols_from_run.
    unfold lbind, do_call, lexit, after_calls; simpl.
    rewrite <- !app_assoc; reflexivity. }
  split; [exact H|].
  intros nm.
  unfold made; rewrite H; simpl lifecycle_of.
  unfold after_calls; simpl calls; rewrite skipn_length_app.
  unfold is_supported_protocol; rewrite is_supported_protocol_from_found.
  split.
  - intros [E|I].
    + injection E as E; vm_compute in E; discriminate E.
    + apply in_app_or in I; destruct I as [I|[E|[]]].
      * apply in_map_iff in I; destruct I as (p & E & I).
        exists p; split; [exact I|].
        injection E as E.
        apply (string_append_cancel_r "] "); exact E.
      * injection E as E; vm_compute in E; discriminate E.
  - intros (p & I & <-).
    right; apply in_or_app; left.
    apply in_map_iff; exists p; split; [reflexivity|exact I].
Qed.

(** ** Which command lines are accepted *)

(** X12: how an argument is matched.  [--log-file=] and
    [--log-min-severity=] are matched as prefixes, whatever follows the
    "=", even nothing; [--no-log], [--no-safe-logging] and [--managed]
    are matched whole, because the comparison includes the terminating
    NUL; every recognized option begins with "--"; and no argument
    matches two of them. *)
Theorem option_matching (a : string) :
  (is_option a = true <-> exists r, a = ("--" ++ r)%string)
  /\ (is_log_file_opt a = true
      <-> exists r, a = ("--log-file=" ++ r)%string)
  /\ (is_min_severity_opt a = true
      <-> exists r, a = ("--log-min-severity=" ++ r)%string)
  /\ (is_no_log_opt a = true <-> a = "--no-log")
  /\ (is_no_safe_logging_opt a = true <-> a = "--no-safe-logging")
  /\ (is_managed_opt a = true <-> a = "--managed")
  /\ (is_recognized a = true -> is_option a = true)
  /\ ((if is_log_file_opt a then 1 else 0)
      + (if is_min_severity_opt a then 1 else 0)
      + (if is_no_log_opt a then 1 else 0)
      + (if is_no_safe_logging_opt a then 1 else 0)
      + (if is_managed_opt a then 1 else 0) <= 1)%nat.
Proof.
  split.
  { unfold is_option; rewrite Z.eqb_eq; apply (strncmp_prefix "--"). }
  split; [apply is_log_file_opt_iff|].
  split; [apply is_min_severity_opt_iff|].
  split; [apply is_no_log_opt_iff|].
  split; [apply is_no_safe_logging_opt_iff|].
  split; [apply is_managed_opt_iff|].
  unfold is_recognized.
  destruct (option_kind_total a) as [H1 H2 H3 H4 H5 H6|H1 H2 H3 H4 H5 H6
    |H1 H2 H3 H4 H5 H6|H1 H2 H3 H4 H5 H6|H1 H2 H3 H4 H5 H6|H1 H2 H3 H4 H5];
    rewrite H1, H2, H3, H4, H5; simpl; split; auto; discriminate.
Qed.

Lemma option_matching_witness :
  is_recognized "--log-file=" = true /\ is_option "--log-file=" = true.
Proof.
  split; [reflexivity|].
  destruct (option_matching "--log-file=") as (_ & _ & _ & _ & _ & _ & H & _).
  exact (H eq_refl).
Defined.

Section Acceptance.

Variable C : collaborators.

(** The loop gets through a run of options that meets the conditions. *)
Lemma scan_args_accepts pre : forall l w,
  Forall (fun a => is_recognized a = true) pre ->
  (List.length (filter is_log_file_opt pre)
   + (if (logfile_set l =? 0)%Z then 0 else 1) <= 1)%nat ->
  (List.length (filter is_severity_setting pre)
   + (if (logsev_set l =? 0)%Z then 0 else 1) <= 1)%nat ->
  Forall (setting_accepted C) pre ->
  exists l' w', scan_args C pre l w = Ret l' w'.
Proof.
  induction pre as [|a pre IH]; intros l w Hr Hf Hs Ha.
  - eexists _, _; reflexivity.
  - inversion Hr as [|? ? Ra Rpre]; subst.
    inversion Ha as [|? ? (Af & Am & An) Apre]; subst.
    rewrite scan_args_cons, handle_option_eq.
    simpl filter in Hf, Hs; unfold is_severity_setting in Hs at 1.
    unfold is_recognized in Ra.
    destruct (option_kind_total a) as [H1 H2 H3 H4 H5 H6|H1 H2 H3 H4 H5 H6
      |H1 H2 H3 H4 H5 H6|H1 H2 H3 H4 H5 H6|H1 H2 H3 H4 H5 H6|H1 H2 H3 H4 H5];
      rewrite ?H1, ?H2, ?H3, ?H4, ?H5 in *; simpl orb in *; cbv iota in *;
      try rewrite H6; try discriminate Ra.
    + simpl List.length in Hf.
      destruct (logfile_set l =? 0); [|lia]; simpl negb; cbv iota.
      pose proof (Af eq_refl) as R; apply Z.ltb_ge in R; rewrite R.
      apply IH; simpl; try assumption; lia.
    + simpl List.length in Hs.
      destruct (logsev_set l =? 0); [|lia]; simpl negb; cbv iota.
      pose proof (Am eq_refl) as R; apply Z.ltb_ge in R; rewrite R.
      apply IH; simpl; try assumption; lia.
    + simpl List.length in Hs.
      destruct (logsev_set l =? 0); [|lia]; simpl negb; cbv iota.
      pose proof (An eq_refl) as R; apply Z.ltb_ge in R; rewrite R.
      apply IH; simpl; try assumption; lia.
    + apply IH; simpl; assumption.
    + apply IH; simpl; assumption.
Qed.

Lemma filter_length_permutation {A} (f : A -> bool) (l l' : list A) :
  Permutation l l' ->
  List.length (filter f l) = List.length (filter f l').
Proof.
  induction 1 as [|x l l' _ IH|x y l|l l' l'' _ IH1 _ IH2]; simpl.
  - reflexivity.
  - destruct (f x); simpl; rewrite IH; reflexivity.
  - destruct (f x), (f y); reflexivity.
  - congruence.
Qed.

Lemma existsb_permutation {A} (f : A -> bool) (l l' : list A) :
  Permutation l l' -> existsb f l = existsb f l'.
Proof.
  induction 1 as [|x l l' _ IH|x y l|l l' l'' _ IH1 _ IH2]; simpl.
  - reflexivity.
  - rewrite IH; reflexivity.
  - destruct (f x), (f y); reflexivity.
  - congruence.
Qed.

Lemma options_acceptable_permutation pre pre' :
  Permutation pre pre' ->
  options_acceptable C pre -> options_acceptable C pre'.
Proof.
  intros P (Hr & Hf & Hs & Ha & Hm); unfold options_acceptable.
  rewrite <- (filter_length_permutation is_log_file_opt _ _ P),
    <- (filter_length_permutation is_severity_setting _ _ P),
    <- (existsb_permutation is_managed_opt _ _ P),
    <- (existsb_permutation is_log_file_opt _ _ P),
    <- (existsb_permutation is_severity_setting _ _ P).
  split; [exact (Permutation_Forall P Hr)|].
  split; [exact Hf|]. split; [exact Hs|].
  split; [exact (Permutation_Forall P Ha)|exact Hm].
Qed.

(** X13: [handle_obfsproxy_args] returns exactly when every argument
    of the leading run is one of the five options, at most one sets a
    log file, at most one sets the severity, the logging module accepts
    each setting, and, if [--managed] is there without a log file, no
    severity was set and the logging module accepts the null method; in
    every other case it ends the process.  Hence whether a command line
    is accepted does not depend on the order of its options. *)
Theorem options_accepted_iff (argv0 : string) (args : list string) :
  ((exists skip w,
       handle_obfsproxy_args C (argv0 :: args) initial_world = Ret skip w)
   <-> options_acceptable C (option_prefix args))
  /\ (forall args',
         Permutation (option_prefix args) (option_prefix args') ->
         (exists skip w,
             handle_obfsproxy_args C (argv0 :: args) initial_world
             = Ret skip w)
         <-> (exists skip w,
                 handle_obfsproxy_args C (argv0 :: args') initial_world
                 = Ret skip w)).
Proof.
  assert (G : forall args,
             (exists skip w,
                 handle_obfsproxy_args C (argv0 :: args) initial_world
                 = Ret skip w)
             <-> options_acceptable C (option_prefix args)).
  { clear args; intros args.
    unfold options_acceptable; split.
    - intros (skip & w & H).
      rewrite handle_obfsproxy_args_eq in H.
      destruct (scan_args C args locals0 initial_world) as [l w1|c w1] eqn:S;
        [|discriminate H].
      pose proof (scan_args_ret_state _ _ _ _ _ _ S)
        as (Hr & _ & _ & _ & _ & Hf & Hs & Ha).
      simpl in Hf, Hs.
      split; [exact Hr|]. split; [lia|]. split; [lia|]. split; [exact Ha|].
      intros Hm Hlf.
      pose proof (scan_args_ret _ _ _ _ _ _ S) as (_ & _ & Sf & Ss & Se & _).
      simpl in Sf, Ss, Se.
      rewrite Sf, Ss, Se, Hm, Hlf in H.
      destruct (existsb is_severity_setting (option_prefix args));
        simpl in H; [discriminate H|].
      split; [reflexivity|].
      destruct (log_set_method_rc C LOG_METHOD_NULL None <? 0) eqn:R;
        [discriminate H|].
      apply Z.ltb_ge in R; exact R.
    - intros (Hr & Hf & Hs & Ha & Hm).
      destruct (scan_args_accepts (option_prefix args) locals0 initial_world)
        as (l & w1 & S); try assumption; simpl; try lia.
      assert (S' : scan_args C args locals0 initial_world = Ret l w1).
      { destruct (option_prefix_remainder args) as (P1 & P2 & P3 & _).
        rewrite P1, (scan_args_app _ _ _ _ _ P2), S.
        destruct (remainder args) as [|b r]; [reflexivity|].
        rewrite scan_args_cons, P3; reflexivity. }
      pose proof (scan_args_ret _ _ _ _ _ _ S') as (_ & _ & Sf & Ss & Se & _).
      simpl in Sf, Ss, Se.
      rewrite handle_obfsproxy_args_eq, S', Sf, Ss, Se.
      destruct (existsb is_managed_opt (option_prefix args));
        [|simpl; eexists _, _; reflexivity].
      destruct (existsb is_log_file_opt (option_prefix args));
        [simpl; eexists _, _; reflexivity|].
      destruct (Hm eq_refl eq_refl) as [-> R].
      apply Z.ltb_ge in R; simpl; rewrite R.
      eexists _, _; reflexivity. }
  split; [apply G|].
  intros args' P; rewrite (G args), (G args').
  split; apply options_acceptable_permutation;
    [exact P|apply Permutation_sym; exact P].
Qed.

End Acceptance.

Lemma options_accepted_iff_witness :
  options_acceptable all_succeed
    (option_prefix ["--log-file=/tmp/x"; "--managed"; "obfs2"])
  /\ exists skip w,
       handle_obfsproxy_args all_succeed
         ["obfsproxy"; "--log-file=/tmp/x"; "--managed"; "obfs2"]
         initial_world = Ret skip w.
Proof.
  assert (A : options_acceptable all_succeed
                (option_prefix ["--log-file=/tmp/x"; "--managed"; "obfs2"])).
  { unfold options_acceptable, setting_accepted.
    split; [repeat constructor|].
    split; [simpl; lia|]. split; [simpl; lia|].
    split; [repeat constructor; simpl; lia|].
    intros _ F; discriminate F. }
  split; [exact A|].
  exact (proj2 (proj1 (options_accepted_iff all_succeed "obfsproxy"
                         ["--log-file=/tmp/x"; "--managed"; "obfs2"])) A).
Defined.
